(** * TikTokService: multi-tenant connection pool and room broadcast

    A shallow embedding of [services/TikTokService.js]: the pool of
    upstream TikTok connections keyed by streamer username, the
    per-room client counters, the upstream event handlers that
    normalise raw payloads and emit them to the streamer's Socket.io
    room, and the periodic sweep of idle connections.

    Modelling conventions.
    - [this.connections] and [this.roomClients] are JS [Map]s keyed by
      string; they are [gmap string _].  A JS [Map] iterates in
      insertion order, a [gmap] in key order: the sweep below visits
      the same entries, possibly in another order.
    - JS numbers that the service computes with (timestamps, counters,
      coin values) are integers, modelled in [Z].
    - Strings are sequences of 8-bit characters; [toLowerCase] and
      [trim] act on the ASCII letters and the ASCII white space.
    - A raw payload is typed by what the handlers read from it: a
      numeric field is missing, [null] or an integer, a text field is
      missing or a string, a field that is only forwarded is any
      value.
    - [Date.now()] is read from the environment: every synchronous run
      of a method or handler receives the current time [now].
    - [new WebcastPushConnection(...)] and [connection.on(...)] do not
      throw.
    - [console.log] and [console.error] output is not modelled.
    - Calls into the upstream client ([connection.connect()],
      [connection.disconnect()]) and into Socket.io
      ([io.to(room).emit(...)]) are recorded, in order, in a trace of
      effects.
    - [connect] is an [async] function with one suspension point, the
      [await] on the upstream handshake.  It is split there into
      [connect_start] and [connect_finish]; the event loop of section
      "Event loop" interleaves other tasks in between. *)

From stdpp Require Import base gmap strings list fin_maps.
From Stdlib Require Import ZArith Ascii String Lia.

Local Open Scope Z_scope.

(** ** The JavaScript values the service inspects *)

Module Js.

(** A value that is only passed through to the emitted payload. *)
Inductive JsVal :=
| JUndefined
| JNull
| JBool (b : bool)
| JNum (n : Z)
| JStr (s : string).

(** A numeric field of a raw payload: missing, [null], or a number. *)
Inductive JsNum :=
| NUndefined
| NNull
| NNum (n : Z).

(** [x || d] for a numeric field [x] and a number [d]: [undefined],
    [null] and [0] are falsy. *)
Definition num_or (x : JsNum) (d : Z) : Z :=
  match x with
  | NNum n => if n =? 0 then d else n
  | NUndefined | NNull => d
  end.

(** [x || d] for a string field ([None] is [undefined] or [null]);
    the empty string is falsy. *)
Definition str_or (x : option string) (d : string) : string :=
  match x with
  | Some EmptyString | None => d
  | Some s => s
  end.

(** [String.prototype.toLowerCase], on the ASCII letters. *)
Definition lower_ascii (c : ascii) : ascii :=
  let n := nat_of_ascii c in
  if ((65 <=? n) && (n <=? 90))%nat then ascii_of_nat (n + 32) else c.

Fixpoint toLowerCase (s : string) : string :=
  match s with
  | EmptyString => EmptyString
  | String c r => String (lower_ascii c) (toLowerCase r)
  end.

(** The ASCII white space and line terminators that [trim] strips:
    TAB, LF, VT, FF, CR and SPACE. *)
Definition is_space (c : ascii) : bool :=
  let n := nat_of_ascii c in
  (((9 <=? n) && (n <=? 13)) || (n =? 32))%nat.

Fixpoint trimStart (s : string) : string :=
  match s with
  | EmptyString => EmptyString
  | String c r => if is_space c then trimStart r else s
  end.

(** [trimEnd] keeps a character when it is not a space or when
    something is left after it. *)
Fixpoint trimEnd (s : string) : string :=
  match s with
  | EmptyString => EmptyString
  | String c r =>
      match trimEnd r with
      | EmptyString => if is_space c then EmptyString else String c EmptyString
      | r' => String c r'
      end
  end.

Definition trim (s : string) : string := trimEnd (trimStart s).

End Js.

Import Js.

(** ** Data model *)

(** A [WebcastPushConnection] object.  [conn_id] is the identity of the
    object ([new] returns a fresh one); [conn_username] is the
    [username] given to the constructor, which is also the [username]
    the handlers registered on the object close over. *)
Record Conn := MkConn {
  conn_id : nat;
  conn_username : string;
}.

#[global] Instance Conn_eq_dec : EqDecision Conn.
Proof. solve_decision. Defined.

(** A value of [this.connections]. *)
Record Entry := MkEntry {
  connection : Conn;
  lastActivity : Z;
}.

(** The [user] object every handler builds from the raw payload. *)
Record User := MkUser {
  uniqueId : JsVal;
  nickname : JsVal;
  profilePictureUrl : JsVal;
}.

(** Raw upstream payloads, with the fields the handlers read. *)
Record ChatData := MkChatData {
  chat_user : User;
  comment : option string;
}.

Record LikeData := MkLikeData {
  like_user : User;
  likeCount : JsVal;
  totalLikeCount : JsVal;
}.

Record SocialData := MkSocialData {
  social_user : User;
  displayType : option string;
}.

Record GiftData := MkGiftData {
  gift_user : User;
  diamondCount : JsNum;
  giftValue : JsNum;
  giftName : option string;
  (** [data.giftDetails?.giftName] *)
  giftDetails_giftName : option string;
  repeatCount : JsNum;
}.

Inductive RawEvent :=
| chat (data : ChatData)
| like (data : LikeData)
| social (data : SocialData)
| gift (data : GiftData)
| connected (roomId : JsVal)
| disconnected
| error (message : JsVal).

Inductive GiftType := small | medium | large.

#[global] Instance GiftType_eq_dec : EqDecision GiftType.
Proof. solve_decision. Defined.

(** The events the service emits to a room, with their payloads. *)
Inductive OutEvent :=
| tiktok_chat (user : User) (comment : string) (rawData : ChatData) (timestamp : Z)
| player_join (user : User) (timestamp : Z)
| player_attack (user : User) (damage : Z) (timestamp : Z)
| tiktok_like (user : User) (likeCount totalLikeCount : JsVal) (timestamp : Z)
| tiktok_share (user : User) (timestamp : Z)
| tiktok_gift (user : User) (giftName : string) (giftValue repeatCount : Z)
              (giftType : GiftType) (rawData : GiftData) (timestamp : Z)
| gift_received (user : User) (giftName : string) (giftValue repeatCount : Z)
                (giftType : GiftType) (timestamp : Z)
| tiktok_connected (roomId : JsVal) (timestamp : Z)
| tiktok_disconnected (timestamp : Z)
| tiktok_error (message : JsVal) (timestamp : Z).

(** What the service does to the outside world. *)
Inductive Effect :=
| Handshake (c : Conn)                    (* connection.connect() *)
| Teardown (c : Conn)                     (* connection.disconnect() *)
| Emit (room : string) (e : OutEvent)     (* io.to(room).emit(...) *)
| Resolved (caller : nat) (result : bool) (* a connect() promise settles *).

(** The service instance, the object allocator, the [connect] calls
    suspended on a handshake, and the trace of effects so far. *)
Record State := MkState {
  connections : gmap string Entry;
  roomClients : gmap string Z;
  nextConn : nat;
  awaiting : list (nat * Conn);
  trace : list Effect;
}.

(** The constructor: two empty maps. *)
Definition init : State :=
  {| connections := ∅; roomClients := ∅; nextConn := 0%nat;
     awaiting := []; trace := [] |}.

Definition with_connections (f : gmap string Entry → gmap string Entry)
    (s : State) : State :=
  {| connections := f (connections s); roomClients := roomClients s;
     nextConn := nextConn s; awaiting := awaiting s; trace := trace s |}.

Definition with_roomClients (f : gmap string Z → gmap string Z)
    (s : State) : State :=
  {| connections := connections s; roomClients := f (roomClients s);
     nextConn := nextConn s; awaiting := awaiting s; trace := trace s |}.

Definition with_awaiting (f : list (nat * Conn) → list (nat * Conn))
    (s : State) : State :=
  {| connections := connections s; roomClients := roomClients s;
     nextConn := nextConn s; awaiting := f (awaiting s); trace := trace s |}.

Definition perform (e : Effect) (s : State) : State :=
  {| connections := connections s; roomClients := roomClients s;
     nextConn := nextConn s; awaiting := awaiting s;
     trace := trace s ++ [e] |}.

(** [new WebcastPushConnection(username, ...)] *)
Definition new_connection (username : string) (s : State) : State * Conn :=
  ({| connections := connections s; roomClients := roomClients s;
      nextConn := S (nextConn s); awaiting := awaiting s; trace := trace s |},
   MkConn (nextConn s) username).

(** ** TikTokService methods *)

(** [entry.lastActivity = Date.now()] *)
Definition touch (now : Z) (e : Entry) : Entry :=
  {| connection := connection e; lastActivity := now |}.

(** [updateActivity(username)] *)
Definition updateActivity (username : string) (now : Z) (s : State) : State :=
  match connections s !! username with
  | Some _ => with_connections (alter (touch now) username) s
  | None => s
  end.

(** [this.roomClients.get(username) || 0] *)
Definition getClientCount (username : string) (s : State) : Z :=
  match roomClients s !! username with
  | Some n => if n =? 0 then 0 else n
  | None => 0
  end.

(** [addClientToRoom(username)] *)
Definition addClientToRoom (username : string) (s : State) : State :=
  let count := getClientCount username s in
  with_roomClients (insert username (count + 1)) s.

(** [removeClientFromRoom(username)] *)
Definition removeClientFromRoom (username : string) (s : State) : State :=
  let count := getClientCount username s in
  if count >? 0 then with_roomClients (insert username (count - 1)) s
  else s.

(** How a call into the upstream client completes. *)
Inductive Completion := Returns | Throws.

(** [connection.disconnect()]: the call is recorded; whether it
    returns or throws is the upstream client's choice, given by
    [outcome]. *)
Definition upstream_disconnect (c : Conn) (outcome : Conn → Completion)
    (s : State) : State * Completion :=
  (perform (Teardown c) s, outcome c).

(** [try { body } catch (e) { handler }] *)
Definition try_catch (body handler : State → State * Completion)
    (s : State) : State * Completion :=
  match body s with
  | (s1, Returns) => (s1, Returns)
  | (s1, Throws) => handler s1
  end.

(** [disconnect(username)]: the [catch] block is empty. *)
Definition disconnect (username : string) (outcome : Conn → Completion)
    (s : State) : State * Completion :=
  match connections s !! username with
  | Some e =>
      match try_catch (upstream_disconnect (connection e) outcome)
                      (λ s', (s', Returns)) s with
      | (s1, Returns) => (with_connections (delete username) s1, Returns)
      | (s1, Throws) => (s1, Throws)
      end
  | None => (s, Returns)
  end.

(** *** Upstream event handlers

    The handlers [connect] registers on a connection; [username] is
    the argument of that [connect] call. *)

(** The gift value: [data.diamondCount || data.giftValue || 1]. *)
Definition truthy (x : JsNum) : bool :=
  match x with
  | NNum n => negb (n =? 0)
  | NUndefined | NNull => false
  end.

Definition or_num (x y : JsNum) : JsNum := if truthy x then x else y.

Definition resolveGiftValue (data : GiftData) : Z :=
  num_or (or_num (diamondCount data) (giftValue data)) 1.

(** [let giftType = "small"; if (v >= 100) ... else if (v >= 10) ...] *)
Definition classifyGift (v : Z) : GiftType :=
  if v >=? 100 then large
  else if v >=? 10 then medium
  else small.

(** [data.comment?.toLowerCase().trim() || ""] *)
Definition normalizeComment (c : option string) : string :=
  str_or (option_map (λ x, trim (toLowerCase x)) c) "".

Definition on_chat (username : string) (data : ChatData) (now rnd : Z)
    (s : State) : State :=
  let message := normalizeComment (comment data) in
  let user := chat_user data in
  let s := updateActivity username now s in
  let s := perform (Emit username (tiktok_chat user message data now)) s in
  let s :=
    if (message =? "join")%string || (message =? "thamgia")%string
    then perform (Emit username (player_join user now)) s else s in
  if (message =? "hit")%string || (message =? "danh")%string
     || (message =? "attack")%string
  then perform (Emit username (player_attack user (rnd + 5) now)) s
  else s.

Definition on_like (username : string) (data : LikeData) (now : Z)
    (s : State) : State :=
  let s := updateActivity username now s in
  perform (Emit username
             (tiktok_like (like_user data) (likeCount data)
                          (totalLikeCount data) now)) s.

Definition on_social (username : string) (data : SocialData) (now : Z)
    (s : State) : State :=
  match displayType data with
  | Some t =>
      if (t =? "pm_mt_msg_viewer_share")%string then
        let s := updateActivity username now s in
        perform (Emit username (tiktok_share (social_user data) now)) s
      else s
  | None => s
  end.

Definition on_gift (username : string) (data : GiftData) (now : Z)
    (s : State) : State :=
  let user := gift_user data in
  let s := updateActivity username now s in
  let giftValue := resolveGiftValue data in
  let giftName :=
    str_or (giftName data)
           (str_or (giftDetails_giftName data) "Unknown Gift") in
  let repeatCount := num_or (repeatCount data) 1 in
  let giftType := classifyGift giftValue in
  let s := perform (Emit username
                      (tiktok_gift user giftName giftValue repeatCount
                                   giftType data now)) s in
  perform (Emit username
             (gift_received user giftName giftValue repeatCount
                            giftType now)) s.

Definition on_connected (username : string) (roomId : JsVal) (now : Z)
    (s : State) : State :=
  perform (Emit username (tiktok_connected roomId now)) s.

Definition on_disconnected (username : string) (now : Z) (s : State) : State :=
  let s := perform (Emit username (tiktok_disconnected now)) s in
  with_connections (delete username) s.

Definition on_error (username : string) (message : JsVal) (now : Z)
    (s : State) : State :=
  perform (Emit username (tiktok_error message now)) s.

(** The upstream client fires event [ev] on connection [c]: the
    handler registered for it runs.  [rnd] is
    [Math.floor(Math.random() * 10)]. *)
Definition handle (c : Conn) (ev : RawEvent) (now rnd : Z) (s : State) : State :=
  let username := conn_username c in
  match ev with
  | chat data => on_chat username data now rnd s
  | like data => on_like username data now s
  | social data => on_social username data now s
  | gift data => on_gift username data now s
  | connected roomId => on_connected username roomId now s
  | disconnected => on_disconnected username now s
  | error message => on_error username message now s
  end.

(** *** connect *)

(** Where a [connect] call stands after its synchronous part. *)
Inductive ConnectStep :=
| Done (result : bool)
| Await (c : Conn).

(** [connect(username, io)] up to [await connection.connect()]. *)
Definition connect_start (username : string) (now : Z) (s : State)
    : State * ConnectStep :=
  match connections s !! username with
  | Some _ => (with_connections (alter (touch now) username) s, Done true)
  | None =>
      let '(s, c) := new_connection username s in
      let s := with_connections
                 (insert username {| connection := c; lastActivity := now |}) s in
      let s := perform (Handshake c) s in
      (s, Await c)
  end.

(** [connect(username, io)] from the point where the handshake
    settles: [return true], or the [catch] block. *)
Definition connect_finish (username : string) (ok : bool) (s : State)
    : State * bool :=
  if ok then (s, true)
  else (with_connections (delete username) s, false).

(** A [connect] call that nothing interleaves with. *)
Definition connect (username : string) (now : Z) (ok : bool) (s : State)
    : State * bool :=
  match connect_start username now s with
  | (s1, Done r) => (s1, r)
  | (s1, Await _) => connect_finish username ok s1
  end.

(** *** checkInactiveConnections *)

Definition TIMEOUT : Z := 5 * 60 * 1000.

(** The period of [setInterval(() => this.checkInactiveConnections(), 60000)]. *)
Definition cleanupIntervalMs : Z := 60000.

(** The test of the loop body, on one entry of the map. *)
Definition isInactive (now : Z) (s : State) (username : string)
    (data : Entry) : bool :=
  let clientCount := getClientCount username s in
  let timeSinceActivity := now - lastActivity data in
  (clientCount =? 0) && (timeSinceActivity >? TIMEOUT).

(** One iteration of the loop, on the entry [kv] of the map. *)
Definition sweepEntry (now : Z) (outcome : Conn → Completion)
    (s : State) (kv : string * Entry) : State :=
  if isInactive now s kv.1 kv.2
  then (disconnect kv.1 outcome s).1
  else s.

(** [for (const [username, data] of this.connections.entries())]: the
    body removes at most the entry it is visiting, so the loop visits
    the entries the pool had when it started, each once. *)
Definition checkInactiveConnections (now : Z) (outcome : Conn → Completion)
    (s : State) : State :=
  foldl (sweepEntry now outcome) s (map_to_list (connections s)).

(** ** Event loop

    Node runs one task at a time.  A task is a call of a service
    method, the firing of an upstream event, a tick of the cleanup
    timer, or the settling of a handshake, which resumes the [connect]
    call suspended on it. *)

Inductive Task :=
| Connect (caller : nat) (username : string) (now : Z)
| Settle (c : Conn) (ok : bool)
| Disconnect (username : string) (outcome : Conn → Completion)
| Upstream (c : Conn) (ev : RawEvent) (now rnd : Z)
| AddClient (username : string)
| RemoveClient (username : string)
| Tick (now : Z) (outcome : Conn → Completion).

(** The first call suspended on the handshake of [c], and the other
    suspended calls. *)
Fixpoint take_awaiting (c : Conn) (l : list (nat * Conn))
    : option (nat * list (nat * Conn)) :=
  match l with
  | [] => None
  | (caller, c') :: r =>
      if decide (c' = c) then Some (caller, r)
      else match take_awaiting c r with
           | Some (k, r') => Some (k, (caller, c') :: r')
           | None => None
           end
  end.

Definition step (t : Task) (s : State) : State :=
  match t with
  | Connect caller username now =>
      match connect_start username now s with
      | (s1, Done r) => perform (Resolved caller r) s1
      | (s1, Await c) => with_awaiting (λ l, l ++ [(caller, c)]) s1
      end
  | Settle c ok =>
      match take_awaiting c (awaiting s) with
      | Some (caller, rest) =>
          let s1 := with_awaiting (λ _, rest) s in
          let '(s2, r) := connect_finish (conn_username c) ok s1 in
          perform (Resolved caller r) s2
      | None => s
      end
  | Disconnect username outcome => (disconnect username outcome s).1
  | Upstream c ev now rnd => handle c ev now rnd s
  | AddClient username => addClientToRoom username s
  | RemoveClient username => removeClientFromRoom username s
  | Tick now outcome => checkInactiveConnections now outcome s
  end.

Definition run (ts : list Task) (s : State) : State :=
  foldl (λ s t, step t s) s ts.

(** The effects a run added to the trace. *)
Definition effects_since (s s' : State) : list Effect :=
  drop (List.length (trace s)) (trace s').

(** ** The downstream transport

    Socket.io keeps, for every room name, the set of sockets that
    joined it; [io.to(room).emit(...)] reaches exactly the members of
    [room].  [socket.join] and [socket.leave] are what [server.js]
    calls on [join-room] and [leave-room]. *)

Definition members (rooms : gmap string (gset nat)) (room : string) : gset nat :=
  default ∅ (rooms !! room).

Definition join (socket : nat) (room : string)
    (rooms : gmap string (gset nat)) : gmap string (gset nat) :=
  <[room := {[socket]} ∪ members rooms room]> rooms.

Definition leave (socket : nat) (room : string)
    (rooms : gmap string (gset nat)) : gmap string (gset nat) :=
  <[room := members rooms room ∖ {[socket]}]> rooms.

(** The sockets an effect reaches. *)
Definition recipients (rooms : gmap string (gset nat)) (e : Effect) : gset nat :=
  match e with
  | Emit room _ => members rooms room
  | _ => ∅
  end.

Definition delivered (rooms : gmap string (gset nat)) (es : list Effect)
    : gset nat :=
  ⋃ (recipients rooms <$> es).

(** The sockets whose only room is [room]. *)
Definition joined_only (rooms : gmap string (gset nat)) (room : string)
    (socket : nat) : Prop :=
  socket ∈ members rooms room ∧
  ∀ r, socket ∈ members rooms r → r = room.

(** ** Reading of the gift-value rule by its words

    "First non-null field wins, unknown or zero values default to 1":
    the first of [diamondCount], [giftValue] that is a number is taken,
    whatever the number; a missing or zero result becomes 1.  This is
    compared with [resolveGiftValue] below. *)

Definition firstNonNull (x y : JsNum) : JsNum :=
  match x with
  | NNum _ => x
  | NUndefined | NNull => y
  end.

Definition resolveGiftValue_firstNonNull (data : GiftData) : Z :=
  match firstNonNull (diamondCount data) (giftValue data) with
  | NNum n => if n =? 0 then 1 else n
  | NUndefined | NNull => 1
  end.

(** ** Measures on traces *)

Definition is_handshake_for (username : string) (e : Effect) : bool :=
  match e with
  | Handshake c => bool_decide (conn_username c = username)
  | _ => false
  end.

(** The number of upstream handshakes started for [username]. *)
Definition handshakes (username : string) (es : list Effect) : nat :=
  List.length (List.filter (is_handshake_for username) es).

Definition is_emit (e : Effect) : bool :=
  match e with
  | Emit _ _ => true
  | _ => false
  end.

(** A task that concerns another streamer than [username], or only
    the room counters. *)
Definition other_tenant (username : string) (t : Task) : Prop :=
  match t with
  | Connect _ u _ => u ≠ username
  | Settle c _ => conn_username c ≠ username
  | Disconnect u _ => u ≠ username
  | Upstream c _ _ _ => conn_username c ≠ username
  | AddClient _ | RemoveClient _ => True
  | Tick _ _ => False
  end.

(** Invariants of the states that a run of the event loop reaches from
    [init]. *)
Definition counts_nonneg (s : State) : Prop :=
  ∀ u n, roomClients s !! u = Some n → 0 ≤ n.

Definition pool_keys_ok (s : State) : Prop :=
  ∀ u e, connections s !! u = Some e →
         conn_username (connection e) = u ∧
         (conn_id (connection e) < nextConn s)%nat.

Definition awaiting_fresh (s : State) : Prop :=
  ∀ caller c, (caller, c) ∈ awaiting s → (conn_id c < nextConn s)%nat.

(** Every entry of the pool after the task was in the pool before,
    with the same connection, or is new and made for its key. *)
Definition pool_step_ok (s s' : State) : Prop :=
  (nextConn s ≤ nextConn s')%nat ∧
  ∀ u e', connections s' !! u = Some e' →
    (∃ e, connections s !! u = Some e ∧ connection e' = connection e) ∨
    (connection e' = MkConn (nextConn s) u ∧ (nextConn s < nextConn s')%nat).

(** An effect that is an emit to [room]. *)
Definition emits_to (room : string) (e : Effect) : Prop :=
  ∃ ev, e = Emit room ev.

(** ** The rest of the service and its caller

    [getStats], the shutdown loop of [server.js], and the Socket.io
    handlers of [server.js] ([join-room], [leave-room], [disconnect],
    [ping]) that call the service. *)

(** The object [getStats()] returns:
    [{activeConnections, connections, rooms}]. *)
Record Stats := MkStats {
  activeConnections : nat;
  stats_connections : list string;
  stats_rooms : gmap string Z;
}.

(** [getStats()] *)
Definition getStats (s : State) : Stats :=
  {| activeConnections := size (connections s);
     stats_connections := (map_to_list (connections s)).*1;
     stats_rooms := roomClients s |}.

(** The SIGINT handler of [server.js], up to [server.close]:
    [stats.connections.forEach((username) => tiktokService.disconnect(username))]. *)
Definition shutdown (outcome : Conn → Completion) (s : State) : State :=
  foldl (λ s username, (disconnect username outcome s).1) s
        (stats_connections (getStats s)).

(** The upstream events whose handler calls [updateActivity]. *)
Definition refreshes (ev : RawEvent) : bool :=
  match ev with
  | chat _ | like _ | gift _ => true
  | social data =>
      match displayType data with
      | Some t => (t =? "pm_mt_msg_viewer_share")%string
      | None => false
      end
  | connected _ | disconnected | error _ => false
  end.

(** The connections a trace started a handshake on, and those it tore
    down, in order. *)
Definition handshake_of (e : Effect) : option Conn :=
  match e with
  | Handshake c => Some c
  | _ => None
  end.

Definition teardown_of (e : Effect) : option Conn :=
  match e with
  | Teardown c => Some c
  | _ => None
  end.

Definition handshake_conns (es : list Effect) : list Conn := omap handshake_of es.

Definition teardown_conns (es : list Effect) : list Conn := omap teardown_of es.

(** A counter that is incremented, and decremented unless it is 0:
    the replay of the [addClientToRoom(username)] and
    [removeClientFromRoom(username)] calls of a run. *)
Definition count_step (username : string) (n : Z) (t : Task) : Z :=
  match t with
  | AddClient u => if decide (u = username) then n + 1 else n
  | RemoveClient u =>
      if decide (u = username) then (if n >? 0 then n - 1 else n) else n
  | _ => n
  end.

Definition count_after (username : string) (ts : list Task) : Z :=
  foldl (count_step username) 0 ts.

(** *** server.js *)

(** JavaScript truthiness of a value. *)
Definition js_truthy (v : JsVal) : bool :=
  match v with
  | JUndefined | JNull => false
  | JBool b => b
  | JNum n => negb (n =? 0)
  | JStr s => negb (s =? "")%string
  end.

(** [username.toLowerCase().trim()] *)
Definition normalizeUsername (username : string) : string :=
  trim (toLowerCase username).

(** The guard of [join-room]:
    [!username || typeof username !== "string"] rejects; what passes
    is a non-empty string. *)
Definition valid_username (payload : JsVal) : option string :=
  match payload with
  | JStr s => if js_truthy payload then Some s else None
  | _ => None
  end.

(** What the server sends to one socket with [socket.emit]. *)
Inductive DirectEvent :=
| invalid_username                      (* "error", Invalid username *)
| room_joined (room : string)           (* "room-joined" *)
| connection_error (username : string)  (* "connection-error", Cannot connect to ... *)
| pong (timestamp : Z).                 (* "pong" *)

(** The server: the service, the rooms of Socket.io, the
    [tiktokUsername] stored on each socket, and what was sent to
    single sockets.  The [join-room] handlers suspended on [connect]
    are the [awaiting] calls of the service, with the socket as
    caller. *)
Record Server := MkServer {
  service : State;
  adapter : gmap string (gset nat);
  socketUsername : gmap nat string;
  outbox : list (nat * DirectEvent);
}.

Definition server_init : Server :=
  {| service := init; adapter := ∅; socketUsername := ∅; outbox := [] |}.

Definition with_service (f : State → State) (ss : Server) : Server :=
  {| service := f (service ss); adapter := adapter ss;
     socketUsername := socketUsername ss; outbox := outbox ss |}.

Definition with_adapter (f : gmap string (gset nat) → gmap string (gset nat))
    (ss : Server) : Server :=
  {| service := service ss; adapter := f (adapter ss);
     socketUsername := socketUsername ss; outbox := outbox ss |}.

Definition with_socketUsername (f : gmap nat string → gmap nat string)
    (ss : Server) : Server :=
  {| service := service ss; adapter := adapter ss;
     socketUsername := f (socketUsername ss); outbox := outbox ss |}.

(** [socket.emit(...)] *)
Definition send (socket : nat) (e : DirectEvent) (ss : Server) : Server :=
  {| service := service ss; adapter := adapter ss;
     socketUsername := socketUsername ss;
     outbox := outbox ss ++ [(socket, e)] |}.

(** What [join-room] sends once [connect] has answered. *)
Definition join_reply (normalizedUsername : string) (isConnected : bool)
    : DirectEvent :=
  if isConnected then room_joined normalizedUsername
  else connection_error normalizedUsername.

(** A new socket: Socket.io puts it in the room named by its own id. *)
Definition on_connection (socket : nat) (id : string) (ss : Server) : Server :=
  with_adapter (join socket id) ss.

(** The [join-room] handler, up to the point where [connect] returns
    or suspends. *)
Definition on_join_room (socket : nat) (payload : JsVal) (now : Z)
    (ss : Server) : Server :=
  match valid_username payload with
  | None => send socket invalid_username ss
  | Some username =>
      let normalizedUsername := normalizeUsername username in
      let ss := with_socketUsername (insert socket normalizedUsername) ss in
      let ss := with_adapter (join socket normalizedUsername) ss in
      let ss := with_service (addClientToRoom normalizedUsername) ss in
      match connect_start normalizedUsername now (service ss) with
      | (s1, Done isConnected) =>
          send socket (join_reply normalizedUsername isConnected)
            (with_service (λ _, perform (Resolved socket isConnected) s1) ss)
      | (s1, Await c) =>
          with_service
            (λ _, with_awaiting (λ l, l ++ [(socket, c)]) s1) ss
      end
  end.

(** The handshake of [c] settles: the [connect] call suspended on it
    finishes and the [join-room] handler that awaited it answers its
    socket. *)
Definition on_settle (c : Conn) (ok : bool) (ss : Server) : Server :=
  match take_awaiting c (awaiting (service ss)) with
  | Some (socket, _) =>
      send socket (join_reply (conn_username c) ok)
        (with_service (step (Settle c ok)) ss)
  | None => ss
  end.

(** The [leave-room] handler.  It tests the payload for truthiness
    only: on a truthy value that is not a string,
    [username.toLowerCase()] throws. *)
Definition on_leave_room (socket : nat) (payload : JsVal) (ss : Server)
    : Server * Completion :=
  if js_truthy payload then
    match payload with
    | JStr username =>
        let normalizedUsername := normalizeUsername username in
        let ss := with_adapter (leave socket normalizedUsername) ss in
        (with_service (removeClientFromRoom normalizedUsername) ss, Returns)
    | _ => (ss, Throws)
    end
  else (ss, Returns).

(** A socket goes away: Socket.io takes it out of every room, then the
    [disconnect] handler runs. *)
Definition on_disconnect (socket : nat) (ss : Server) : Server :=
  let ss := with_adapter (fmap (λ sockets, sockets ∖ {[socket]})) ss in
  match socketUsername ss !! socket with
  | Some tiktokUsername =>
      if js_truthy (JStr tiktokUsername)
      then with_service (removeClientFromRoom tiktokUsername) ss
      else ss
  | None => ss
  end.

(** The [ping] handler. *)
Definition on_ping (socket : nat) (now : Z) (ss : Server) : Server :=
  send socket (pong now) ss.

(** The tasks of the server process. *)
Inductive ServerTask :=
| SocketConnects (socket : nat) (id : string)
| JoinRoom (socket : nat) (payload : JsVal) (now : Z)
| LeaveRoom (socket : nat) (payload : JsVal)
| SocketDisconnects (socket : nat)
| Ping (socket : nat) (now : Z)
| HandshakeSettles (c : Conn) (ok : bool)
| UpstreamFires (c : Conn) (ev : RawEvent) (now rnd : Z)
| CleanupTick (now : Z) (outcome : Conn → Completion).

(** One task of the server; [None] when the handler throws, which
    nothing in [server.js] catches. *)
Definition server_step (t : ServerTask) (ss : Server) : option Server :=
  match t with
  | SocketConnects socket id => Some (on_connection socket id ss)
  | JoinRoom socket payload now => Some (on_join_room socket payload now ss)
  | LeaveRoom socket payload =>
      match on_leave_room socket payload ss with
      | (ss', Returns) => Some ss'
      | (_, Throws) => None
      end
  | SocketDisconnects socket => Some (on_disconnect socket ss)
  | Ping socket now => Some (on_ping socket now ss)
  | HandshakeSettles c ok => Some (on_settle c ok ss)
  | UpstreamFires c ev now rnd =>
      Some (with_service (handle c ev now rnd) ss)
  | CleanupTick now outcome =>
      Some (with_service (checkInactiveConnections now outcome) ss)
  end.

Fixpoint server_run (ts : list ServerTask) (ss : Server) : option Server :=
  match ts with
  | [] => Some ss
  | t :: ts' =>
      match server_step t ss with
      | Some ss' => server_run ts' ss'
      | None => None
      end
  end.

(** A task by which [socket] comes into room [room]: its own
    connection with that id, or a [join-room] it sends with a valid
    name that normalises to [room]. *)
Definition asks_for (socket : nat) (room : string) (t : ServerTask) : Prop :=
  match t with
  | SocketConnects k id => k = socket ∧ id = room
  | JoinRoom k payload _ =>
      k = socket ∧
      ∃ username, valid_username payload = Some username ∧
                  normalizeUsername username = room
  | _ => False
  end.

(** The life of connection objects, as an invariant of the states a
    run reaches: the handshakes started so far are those of the
    connection objects created so far, one each, in order of creation;
    every connection in the pool or awaited by a [connect] call has had
    its handshake started; no connection was torn down twice, none
    without a handshake, and none that was torn down is in the pool. *)
Definition lifecycle_inv (s : State) : Prop :=
  pool_keys_ok s ∧
  conn_id <$> handshake_conns (trace s) = seq 0 (nextConn s) ∧
  (∀ u e, connections s !! u = Some e →
          connection e ∈ handshake_conns (trace s)) ∧
  (∀ k c, (k, c) ∈ awaiting s → c ∈ handshake_conns (trace s)) ∧
  NoDup (teardown_conns (trace s)) ∧
  (∀ c, c ∈ teardown_conns (trace s) → c ∈ handshake_conns (trace s)) ∧
  (∀ c u e, c ∈ teardown_conns (trace s) →
            connections s !! u = Some e → connection e ≠ c).

(** A task that creates no connection object, starts no handshake,
    tears nothing down and adds nothing to the pool. *)
Definition quiet_step (s s' : State) : Prop :=
  (∃ es, trace s' = trace s ++ es ∧
         handshake_conns es = [] ∧ teardown_conns es = []) ∧
  nextConn s' = nextConn s ∧
  (∀ p, p ∈ awaiting s' → p ∈ awaiting s) ∧
  (∀ u e', connections s' !! u = Some e' →
     ∃ e, connections s !! u = Some e ∧ connection e' = connection e).

(** The upstream client fires the events [evs] on connection [c], one
    task each; an event comes with the clock value and the random
    digit of the run of its handler. *)
Definition fires (c : Conn) (evs : list (RawEvent * Z * Z)) : list Task :=
  (λ p, Upstream c p.1.1 p.1.2 p.2) <$> evs.

(** * Proofs *)

(** ** Traces *)

Lemma effects_since_app (s s' : State) (es : list Effect) :
  trace s' = trace s ++ es → effects_since s s' = es.
Proof.
  intros E. unfold effects_since. rewrite E. apply drop_app_length.
Qed.

Lemma handshakes_app (u : string) (a b : list Effect) :
  handshakes u (a ++ b) = (handshakes u a + handshakes u b)%nat.
Proof. unfold handshakes. by rewrite List.filter_app, List.length_app. Qed.

(** ** What each method leaves alone *)

Ltac unfold_methods :=
  unfold handle, on_chat, on_like, on_social, on_gift, on_connected,
    on_disconnected, on_error, updateActivity, disconnect, try_catch,
    upstream_disconnect, connect_start, connect_finish, new_connection,
    addClientToRoom, removeClientFromRoom, with_connections,
    with_roomClients, with_awaiting, perform in *.

Ltac split_cases := repeat (case_match; simplify_eq/=; try done).

Lemma disconnect_returns (u : string) (outcome : Conn → Completion) (s : State) :
  (disconnect u outcome s).2 = Returns.
Proof. unfold_methods. by split_cases. Qed.

Lemma disconnect_absent (u : string) (outcome : Conn → Completion) (s : State) :
  connections s !! u = None → disconnect u outcome s = (s, Returns).
Proof. intros E. unfold disconnect. by rewrite E. Qed.

Lemma disconnect_present (u : string) (outcome : Conn → Completion)
    (s : State) (e : Entry) :
  connections s !! u = Some e →
  disconnect u outcome s =
    (with_connections (delete u) (perform (Teardown (connection e)) s), Returns).
Proof.
  intros E. unfold disconnect, try_catch, upstream_disconnect. rewrite E.
  by destruct (outcome (connection e)).
Qed.

Lemma disconnect_frame (u : string) (outcome : Conn → Completion) (s : State) :
  let s' := (disconnect u outcome s).1 in
  roomClients s' = roomClients s ∧ nextConn s' = nextConn s ∧
  awaiting s' = awaiting s.
Proof.
  destruct (connections s !! u) as [e|] eqn:E.
  - by rewrite (disconnect_present _ _ _ _ E).
  - by rewrite (disconnect_absent _ _ _ E).
Qed.

Lemma getClientCount_frame (u : string) (s s' : State) :
  roomClients s' = roomClients s → getClientCount u s' = getClientCount u s.
Proof. unfold getClientCount. by intros ->. Qed.

Lemma handle_frame (c : Conn) (ev : RawEvent) (now rnd : Z) (s : State) :
  let s' := handle c ev now rnd s in
  roomClients s' = roomClients s ∧ nextConn s' = nextConn s ∧
  awaiting s' = awaiting s.
Proof. destruct ev; unfold_methods; by split_cases. Qed.

Lemma connect_start_frame (u : string) (now : Z) (s : State) :
  let s' := (connect_start u now s).1 in
  roomClients s' = roomClients s ∧ awaiting s' = awaiting s.
Proof. unfold_methods. by split_cases. Qed.

Lemma sweepEntry_frame (now : Z) (outcome : Conn → Completion) (s : State)
    (kv : string * Entry) :
  let s' := sweepEntry now outcome s kv in
  roomClients s' = roomClients s ∧ nextConn s' = nextConn s ∧
  awaiting s' = awaiting s.
Proof.
  unfold sweepEntry. case_match; [apply disconnect_frame | done].
Qed.

Lemma sweep_frame (now : Z) (outcome : Conn → Completion)
    (l : list (string * Entry)) (s : State) :
  let s' := foldl (sweepEntry now outcome) s l in
  roomClients s' = roomClients s ∧ nextConn s' = nextConn s ∧
  awaiting s' = awaiting s.
Proof.
  revert s. induction l as [|kv l IH]; intros s; [done|]. simpl.
  destruct (IH (sweepEntry now outcome s kv)) as (-> & -> & ->).
  apply sweepEntry_frame.
Qed.

Lemma step_roomClients (t : Task) (s : State) :
  (∀ u, t ≠ AddClient u) → (∀ u, t ≠ RemoveClient u) →
  roomClients (step t s) = roomClients s.
Proof.
  intros Ha Hr. destruct t as [k u now|c ok|u o|c ev now rnd|u|u|now o]; simpl.
  - pose proof (connect_start_frame u now s) as [H _].
    destruct (connect_start u now s) as [s1 [r|c]]; exact H.
  - unfold_methods. by split_cases.
  - apply disconnect_frame.
  - apply handle_frame.
  - by destruct (Ha u).
  - by destruct (Hr u).
  - apply sweep_frame.
Qed.

(** ** The room counters *)

Lemma getClientCount_nonneg (u : string) (s : State) :
  counts_nonneg s → 0 ≤ getClientCount u s.
Proof.
  intros H. unfold getClientCount.
  destruct (roomClients s !! u) as [n|] eqn:E; [|done].
  specialize (H _ _ E). case_match; lia.
Qed.

Lemma addClientToRoom_counts (u : string) (s : State) :
  counts_nonneg s → counts_nonneg (addClientToRoom u s).
Proof.
  intros H v n. pose proof (getClientCount_nonneg u s H).
  unfold addClientToRoom, with_roomClients; simpl.
  rewrite lookup_insert. case_decide; [|apply H].
  intros [= <-]. lia.
Qed.

Lemma removeClientFromRoom_counts (u : string) (s : State) :
  counts_nonneg s → counts_nonneg (removeClientFromRoom u s).
Proof.
  intros H v n. unfold removeClientFromRoom, with_roomClients.
  destruct (getClientCount u s >? 0) eqn:G; simpl; [|apply H].
  rewrite lookup_insert. case_decide; [|apply H].
  intros [= <-]. lia.
Qed.

Lemma step_counts_nonneg (t : Task) (s : State) :
  counts_nonneg s → counts_nonneg (step t s).
Proof.
  intros H.
  destruct t as [k u now|c ok|u o|c ev now rnd|u|u|now o];
    try (unfold counts_nonneg; rewrite step_roomClients; [exact H|done..]).
  - by apply addClientToRoom_counts.
  - by apply removeClientFromRoom_counts.
Qed.

Lemma run_snoc (ts : list Task) (t : Task) (s : State) :
  run (ts ++ [t]) s = step t (run ts s).
Proof. unfold run. by rewrite foldl_app. Qed.

(** Induction over the runs of the event loop. *)
Lemma run_invariant (P : State → Prop) (s : State) :
  P s → (∀ t s', P s' → P (step t s')) → ∀ ts, P (run ts s).
Proof.
  intros H0 Hstep ts. induction ts as [|t ts IH] using rev_ind; [done|].
  rewrite run_snoc. by apply Hstep.
Qed.

Lemma run_counts_nonneg (ts : list Task) : counts_nonneg (run ts init).
Proof.
  apply run_invariant; [|apply step_counts_nonneg].
  intros u n. simpl. by rewrite lookup_empty.
Qed.

(** C9. Starting from the empty registry, after any sequence of
    operations of the service (increments and decrements of any
    rooms, and every other task) the client count of every room is a
    non-negative integer, and so is the number stored for it;
    [removeClientFromRoom] on a room whose count is 0 changes nothing
    and the count stays 0. *)
Theorem client_count_never_negative (ts : list Task) (username : string) :
  let s := run ts init in
  0 ≤ getClientCount username s ∧
  (∀ n, roomClients s !! username = Some n → 0 ≤ n) ∧
  (getClientCount username s = 0 →
     removeClientFromRoom username s = s ∧
     getClientCount username (removeClientFromRoom username s) = 0) ∧
  (0 < getClientCount username s →
     getClientCount username (removeClientFromRoom username s)
       = getClientCount username s - 1) ∧
  getClientCount username (addClientToRoom username s)
    = getClientCount username s + 1.
Proof.
  intros s. pose proof (run_counts_nonneg ts) as Hinv. fold s in Hinv.
  pose proof (getClientCount_nonneg username s Hinv) as H0.
  split_and!.
  - done.
  - intros n. apply Hinv.
  - intros E. unfold removeClientFromRoom. rewrite E. done.
  - intros G. unfold removeClientFromRoom.
    destruct (getClientCount username s >? 0) eqn:T; [|lia].
    unfold getClientCount at 1, with_roomClients; simpl.
    rewrite lookup_insert_eq. case_match; lia.
  - unfold addClientToRoom.
    unfold getClientCount at 1, with_roomClients; simpl.
    rewrite lookup_insert_eq. case_match; lia.
Qed.

Lemma client_count_never_negative_witness :
  getClientCount "alice" (run [RemoveClient "alice"] init) = 0 ∧
  removeClientFromRoom "alice" (run [RemoveClient "alice"] init)
    = run [RemoveClient "alice"] init.
Proof.
  pose proof (client_count_never_negative [RemoveClient "alice"] "alice")
    as (_ & _ & H & _).
  split; [reflexivity | apply H; reflexivity].
Defined.

(** ** Gift value and gift type *)

Lemma classifyGift_small (v : Z) : classifyGift v = small ↔ v < 10.
Proof. unfold classifyGift. repeat case_match; split; (done || lia). Qed.

Lemma classifyGift_medium (v : Z) : classifyGift v = medium ↔ 10 ≤ v < 100.
Proof. unfold classifyGift. repeat case_match; split; (done || lia). Qed.

Lemma classifyGift_large (v : Z) : classifyGift v = large ↔ 100 ≤ v.
Proof. unfold classifyGift. repeat case_match; split; (done || lia). Qed.

Lemma updateActivity_trace (u : string) (now : Z) (s : State) :
  trace (updateActivity u now s) = trace s.
Proof. unfold updateActivity. by case_match. Qed.

Lemma on_gift_trace (u : string) (data : GiftData) (now : Z) (s : State) :
  trace (on_gift u data now s) =
    trace s ++
    [Emit u (tiktok_gift (gift_user data)
               (str_or (giftName data)
                  (str_or (giftDetails_giftName data) "Unknown Gift"))
               (resolveGiftValue data) (num_or (repeatCount data) 1)
               (classifyGift (resolveGiftValue data)) data now);
     Emit u (gift_received (gift_user data)
               (str_or (giftName data)
                  (str_or (giftDetails_giftName data) "Unknown Gift"))
               (resolveGiftValue data) (num_or (repeatCount data) 1)
               (classifyGift (resolveGiftValue data)) now)].
Proof.
  unfold on_gift, perform; simpl. rewrite updateActivity_trace.
  by rewrite <- app_assoc.
Qed.

(** C7, as the code has it.  The gift value [v] is the first of
    [diamondCount], [giftValue] that is a number other than 0 (a
    missing, null or zero field is skipped), and 1 when neither is;
    the gift type is a function of [v] alone: small iff [v < 10],
    medium iff [10 <= v < 100], large iff [v >= 100]; 9 is small, 10
    and 99 are medium, 100 is large.  Both events of the gift handler
    carry this value and this type. *)
Theorem gift_value_first_nonzero_and_type (data : GiftData) :
  let v := resolveGiftValue data in
  (∀ n, diamondCount data = NNum n → n ≠ 0 → v = n) ∧
  (truthy (diamondCount data) = false →
     ∀ n, giftValue data = NNum n → n ≠ 0 → v = n) ∧
  (truthy (diamondCount data) = false →
     truthy (giftValue data) = false → v = 1) ∧
  (classifyGift v = small ↔ v < 10) ∧
  (classifyGift v = medium ↔ 10 ≤ v < 100) ∧
  (classifyGift v = large ↔ 100 ≤ v) ∧
  classifyGift 9 = small ∧ classifyGift 10 = medium ∧
  classifyGift 99 = medium ∧ classifyGift 100 = large ∧
  ∀ username now s,
    ∃ name count,
      effects_since s (on_gift username data now s) =
        [Emit username (tiktok_gift (gift_user data) name v count
                                    (classifyGift v) data now);
         Emit username (gift_received (gift_user data) name v count
                                      (classifyGift v) now)].
Proof.
  intros v. subst v. unfold resolveGiftValue, or_num, num_or, truthy.
  split_and!.
  - intros n -> Hn. destruct (n =? 0) eqn:E; simpl; [lia|]. by rewrite E.
  - intros Hd n -> Hn. rewrite Hd.
    destruct (n =? 0) eqn:E; [lia|done].
  - intros Hd Hg. rewrite Hd.
    destruct (giftValue data) as [| |n]; try done.
    destruct (n =? 0); done.
  - apply classifyGift_small.
  - apply classifyGift_medium.
  - apply classifyGift_large.
  - done.
  - done.
  - done.
  - done.
  - intros username now s. eexists _, _.
    apply effects_since_app. apply on_gift_trace.
Qed.

Lemma gift_value_first_nonzero_and_type_witness :
  resolveGiftValue
    (MkGiftData (MkUser JUndefined JUndefined JUndefined)
                (NNum 0) (NNum 50) None None NUndefined) = 50.
Proof.
  pose proof (gift_value_first_nonzero_and_type
                (MkGiftData (MkUser JUndefined JUndefined JUndefined)
                            (NNum 0) (NNum 50) None None NUndefined))
    as (_ & H & _).
  apply H; [reflexivity | reflexivity | lia].
Defined.

(** C7, as the claim words it, fails: on a gift whose [diamondCount]
    is 0 and whose [giftValue] is 50, the first non-null field is
    [diamondCount], so the worded rule gives 1 and "small"; the
    handler takes 50 and "medium". *)
Lemma gift_value_first_non_null_counterexample :
  let data := MkGiftData (MkUser JUndefined JUndefined JUndefined)
                         (NNum 0) (NNum 50) None None NUndefined in
  resolveGiftValue_firstNonNull data = 1 ∧
  classifyGift (resolveGiftValue_firstNonNull data) = small ∧
  resolveGiftValue data = 50 ∧
  classifyGift (resolveGiftValue data) = medium ∧
  resolveGiftValue data ≠ resolveGiftValue_firstNonNull data.
Proof. by vm_compute. Qed.

(** ** Room isolation *)

Lemma handle_trace (c : Conn) (ev : RawEvent) (now rnd : Z) (s : State) :
  ∃ es, trace (handle c ev now rnd s) = trace s ++ es ∧
        Forall (emits_to (conn_username c)) es.
Proof.
  destruct ev as [d|d|d|d|r| |m]; unfold handle.
  - unfold on_chat, perform; simpl.
    repeat case_match; simpl; rewrite updateActivity_trace, <- ?app_assoc;
      simpl; eexists; (split; [reflexivity|]);
      repeat constructor; by eexists.
  - unfold on_like, perform; simpl. rewrite updateActivity_trace.
    eexists; split; [reflexivity|]. repeat constructor; by eexists.
  - unfold on_social, perform. repeat case_match; simpl;
      rewrite ?updateActivity_trace.
    + eexists; split; [reflexivity|]. repeat constructor; by eexists.
    + exists []. by rewrite app_nil_r.
    + exists []. by rewrite app_nil_r.
  - rewrite on_gift_trace. eexists; split; [reflexivity|].
    repeat constructor; by eexists.
  - eexists; split; [reflexivity|]. repeat constructor; by eexists.
  - eexists; split; [reflexivity|]. repeat constructor; by eexists.
  - eexists; split; [reflexivity|]. repeat constructor; by eexists.
Qed.

Lemma delivered_emits_to (rooms : gmap string (gset nat)) (room : string)
    (es : list Effect) :
  Forall (emits_to room) es → delivered rooms es ⊆ members rooms room.
Proof.
  unfold delivered. induction 1 as [|e es [ev ->] _ IH]; simpl.
  - apply empty_subseteq.
  - apply union_subseteq. split; [done|exact IH].
Qed.

(** ** The pool *)

Lemma connect_start_present (u : string) (now : Z) (s : State) (e : Entry) :
  connections s !! u = Some e →
  connect_start u now s =
    (with_connections (alter (touch now) u) s, Done true).
Proof. intros E. unfold connect_start. by rewrite E. Qed.

Lemma connect_start_absent (u : string) (now : Z) (s : State) :
  connections s !! u = None →
  let c := MkConn (nextConn s) u in
  connect_start u now s =
    (perform (Handshake c)
       (with_connections (insert u {| connection := c; lastActivity := now |})
          (new_connection u s).1),
     Await c).
Proof. intros E. unfold connect_start. by rewrite E. Qed.

Lemma take_awaiting_fresh (c : Conn) (caller : nat) (l : list (nat * Conn)) :
  (∀ k, (k, c) ∉ l) →
  take_awaiting c (l ++ [(caller, c)]) = Some (caller, l).
Proof.
  induction l as [|[k c'] l IH]; intros H; simpl.
  - by rewrite decide_True.
  - destruct (decide (c' = c)) as [->|Hne].
    + exfalso. apply (H k). by left.
    + rewrite IH; [done|]. intros k' Hin. apply (H k'). by right.
Qed.

Lemma take_awaiting_keeps (c : Conn) (l rest : list (nat * Conn))
    (caller : nat) (p : nat * Conn) :
  take_awaiting c l = Some (caller, rest) → p ∈ l → p.2 ≠ c → p ∈ rest.
Proof.
  revert rest. induction l as [|[k c'] l IH]; intros rest; simpl; [done|].
  destruct (decide (c' = c)) as [->|Hne].
  - intros [= <- <-] Hin Hp. apply elem_of_cons in Hin as [->|Hin]; done.
  - destruct (take_awaiting c l) as [[k' r']|] eqn:E; [|done].
    intros [= <- <-] Hin Hp. apply elem_of_cons in Hin as [->|Hin].
    + by left.
    + right. by apply IH.
Qed.

Lemma take_awaiting_subset (c : Conn) (l rest : list (nat * Conn))
    (caller : nat) (p : nat * Conn) :
  take_awaiting c l = Some (caller, rest) → p ∈ rest → p ∈ l.
Proof.
  revert rest. induction l as [|[k c'] l IH]; intros rest; simpl; [done|].
  destruct (decide (c' = c)) as [->|Hne].
  - intros [= <- <-] Hin. by right.
  - destruct (take_awaiting c l) as [[k' r']|] eqn:E; [|done].
    intros [= <- <-] Hin. apply elem_of_cons in Hin as [->|Hin].
    + by left.
    + right. by apply (IH r').
Qed.

Lemma pool_step_ok_refl (s : State) : pool_step_ok s s.
Proof. split; [done|]. intros u e E. left. by exists e. Qed.

Lemma pool_step_ok_same_next (s s1 s2 : State) :
  pool_step_ok s s1 → pool_step_ok s1 s2 → nextConn s1 = nextConn s →
  pool_step_ok s s2.
Proof.
  intros [_ H1] [Hn H2] En. split; [lia|].
  intros u e2 E2. destruct (H2 u e2 E2) as [(e1 & E1 & ->)|[-> Hlt]].
  - destruct (H1 u e1 E1) as [(e & E & ->)|[-> Hlt]].
    + left. by exists e.
    + lia.
  - right. rewrite <- En. split; [done|lia].
Qed.

Lemma lookup_alter_touch (now : Z) (u v : string) (m : gmap string Entry)
    (e' : Entry) :
  alter (touch now) u m !! v = Some e' →
  ∃ e, m !! v = Some e ∧ connection e' = connection e.
Proof.
  rewrite lookup_alter. case_decide.
  - subst v. destruct (m !! u) as [e|]; simpl; [|done].
    intros [= <-]. by exists e.
  - intros E. by exists e'.
Qed.

Lemma lookup_delete_some (u v : string) (m : gmap string Entry) (e' : Entry) :
  delete u m !! v = Some e' →
  ∃ e, m !! v = Some e ∧ connection e' = connection e.
Proof.
  rewrite lookup_delete. case_decide; [done|]. intros E. by exists e'.
Qed.

Lemma disconnect_pool (u : string) (outcome : Conn → Completion) (s : State) :
  pool_step_ok s (disconnect u outcome s).1.
Proof.
  destruct (connections s !! u) as [e|] eqn:E.
  - rewrite (disconnect_present _ _ _ _ E). split; [done|].
    intros v e'; simpl. intros H. left. by eapply lookup_delete_some.
  - rewrite (disconnect_absent _ _ _ E). apply pool_step_ok_refl.
Qed.

Lemma updateActivity_pool (u : string) (now : Z) (s : State) :
  pool_step_ok s (updateActivity u now s) ∧
  nextConn (updateActivity u now s) = nextConn s.
Proof.
  unfold updateActivity. case_match; [|split; [apply pool_step_ok_refl|done]].
  split; [|done]. split; [done|]. intros v e'; simpl. intros E.
  left. by eapply lookup_alter_touch.
Qed.

Lemma handle_pool (c : Conn) (ev : RawEvent) (now rnd : Z) (s : State) :
  pool_step_ok s (handle c ev now rnd s).
Proof.
  pose proof (updateActivity_pool (conn_username c) now s) as [Hu Hn].
  pose proof (pool_step_ok_refl s) as Hs.
  destruct ev as [d|d|d|d|r| |m]; unfold handle.
  - unfold on_chat, perform. repeat case_match; exact Hu.
  - exact Hu.
  - unfold on_social, perform. repeat case_match; [exact Hu|exact Hs..].
  - exact Hu.
  - exact Hs.
  - split; [done|]. intros v e'; simpl. intros E. left.
    by eapply lookup_delete_some.
  - exact Hs.
Qed.

Lemma sweep_pool (now : Z) (outcome : Conn → Completion)
    (l : list (string * Entry)) (s : State) :
  pool_step_ok s (foldl (sweepEntry now outcome) s l).
Proof.
  revert s. induction l as [|kv l IH]; intros s; simpl;
    [apply pool_step_ok_refl|].
  eapply pool_step_ok_same_next; [|apply IH|apply sweepEntry_frame].
  unfold sweepEntry. case_match;
    [apply disconnect_pool|apply pool_step_ok_refl].
Qed.

Lemma step_pool (t : Task) (s : State) : pool_step_ok s (step t s).
Proof.
  pose proof (pool_step_ok_refl s) as Hs.
  destruct t as [k u now|c ok|u o|c ev now rnd|u|u|now o]; simpl.
  - destruct (connections s !! u) as [e|] eqn:E.
    + rewrite (connect_start_present _ _ _ _ E). split; [done|].
      intros v e'; simpl. intros H. left. by eapply lookup_alter_touch.
    + rewrite (connect_start_absent _ _ _ E). split; [simpl; lia|].
      intros v e'; simpl. rewrite lookup_insert. case_decide.
      * subst v. intros [= <-]. right. simpl. split; [done|lia].
      * intros H'. left. by exists e'.
  - destruct (take_awaiting c (awaiting s)) as [[k rest]|]; [|exact Hs].
    destruct ok; simpl; [exact Hs|].
    split; [done|]. intros v e'; simpl. intros H. left.
    by eapply lookup_delete_some.
  - apply disconnect_pool.
  - apply handle_pool.
  - exact Hs.
  - unfold removeClientFromRoom. case_match; exact Hs.
  - apply sweep_pool.
Qed.

Lemma step_pool_keys_ok (t : Task) (s : State) :
  pool_keys_ok s → pool_keys_ok (step t s).
Proof.
  intros H u e' E'. destruct (step_pool t s) as [Hn Hp].
  destruct (Hp u e' E') as [(e & E & ->)|[-> Hlt]].
  - destruct (H u e E). split; [done|lia].
  - simpl. split; [done|lia].
Qed.

Lemma run_pool_keys_ok (ts : list Task) : pool_keys_ok (run ts init).
Proof.
  apply run_invariant; [|apply step_pool_keys_ok].
  intros u e. simpl. by rewrite lookup_empty.
Qed.

Lemma step_awaiting_fresh (t : Task) (s : State) :
  awaiting_fresh s → awaiting_fresh (step t s).
Proof.
  intros H.
  destruct t as [k u now|c ok|u o|c ev now rnd|u|u|now o]; simpl.
  - destruct (connections s !! u) as [e|] eqn:E.
    + rewrite (connect_start_present _ _ _ _ E). exact H.
    + rewrite (connect_start_absent _ _ _ E). intros k' c'; simpl.
      rewrite elem_of_app, list_elem_of_singleton.
      intros [Hin|[= -> ->]]; [|simpl; lia].
      specialize (H _ _ Hin). lia.
  - destruct (take_awaiting c (awaiting s)) as [[k rest]|] eqn:T; [|done].
    intros k' c'. destruct ok; simpl; intros Hin;
      apply (H k' c'); by eapply take_awaiting_subset.
  - intros k' c'. destruct (disconnect_frame u o s) as (_ & -> & ->). apply H.
  - intros k' c'.
    destruct (handle_frame c ev now rnd s) as (_ & -> & ->). apply H.
  - exact H.
  - unfold removeClientFromRoom. by case_match.
  - intros k' c'. unfold checkInactiveConnections.
    destruct (sweep_frame now o (map_to_list (connections s)) s)
      as (_ & -> & ->).
    apply H.
Qed.

Lemma run_awaiting_fresh (ts : list Task) : awaiting_fresh (run ts init).
Proof.
  apply run_invariant; [|apply step_awaiting_fresh].
  intros k c. simpl. by rewrite elem_of_nil.
Qed.

(** ** connect and disconnect *)

Lemma step_connect_present (k : nat) (u : string) (now : Z) (s : State)
    (e : Entry) :
  connections s !! u = Some e →
  step (Connect k u now) s =
    perform (Resolved k true) (with_connections (alter (touch now) u) s).
Proof. intros E. simpl. by rewrite (connect_start_present _ _ _ _ E). Qed.

Lemma step_connect_absent (k : nat) (u : string) (now : Z) (s : State) :
  connections s !! u = None →
  let c := MkConn (nextConn s) u in
  step (Connect k u now) s =
    with_awaiting (λ l, l ++ [(k, c)])
      (perform (Handshake c)
         (with_connections
            (insert u {| connection := c; lastActivity := now |})
            (new_connection u s).1)).
Proof. intros E. simpl. by rewrite (connect_start_absent _ _ _ E). Qed.

Lemma step_settle (c : Conn) (ok : bool) (s : State) (k : nat)
    (rest : list (nat * Conn)) :
  take_awaiting c (awaiting s) = Some (k, rest) →
  step (Settle c ok) s =
    perform (Resolved k ok)
      (if ok then with_awaiting (λ _, rest) s
       else with_connections (delete (conn_username c))
              (with_awaiting (λ _, rest) s)).
Proof. intros E. simpl. rewrite E. by destruct ok. Qed.

(** In a reachable state no call is suspended on the connection that
    the next [new] will return. *)
Lemma next_connection_not_awaited (ts : list Task) (u : string) (k : nat) :
  (k, MkConn (nextConn (run ts init)) u) ∉ awaiting (run ts init).
Proof.
  intros Hin. apply run_awaiting_fresh in Hin. simpl in Hin. lia.
Qed.

(** C4. When the pool already holds an entry for [username],
    [connect(username)] starts no handshake and creates no connection
    object: it has no effect on the outside, sets the entry's
    [lastActivity] to the current time, keeps the entry's connection,
    leaves the other entries alone and returns [true].  So two
    [connect(username)] calls in sequence, the first one successful
    from a pool without [username], start exactly one handshake, on
    the connection the second call reuses. *)
Theorem connect_reuses_existing_entry
    (s : State) (username : string) (e : Entry) (now : Z) (ok : bool) :
  connections s !! username = Some e →
  let s' := (connect username now ok s).1 in
  (connect username now ok s).2 = true ∧
  effects_since s s' = [] ∧
  nextConn s' = nextConn s ∧
  connections s' !! username
    = Some {| connection := connection e; lastActivity := now |} ∧
  (∀ u, u ≠ username → connections s' !! u = connections s !! u) ∧
  (∀ s0 now0,
     connections s0 !! username = None →
     s = (connect username now0 true s0).1 →
     (connect username now0 true s0).2 = true ∧
     effects_since s0 s' = [Handshake (connection e)] ∧
     handshakes username (effects_since s0 s') = 1%nat).
Proof.
  intros E s'. subst s'. unfold connect.
  rewrite (connect_start_present _ _ _ _ E). simpl.
  split_and!.
  - done.
  - apply effects_since_app. simpl. by rewrite app_nil_r.
  - done.
  - by rewrite lookup_alter_eq, E.
  - intros u Hu. by rewrite lookup_alter_ne.
  - intros s0 now0 E0 Hs.
    rewrite (connect_start_absent _ _ _ E0) in Hs. simpl in Hs.
    rewrite (connect_start_absent _ _ _ E0). simpl.
    assert (connection e = MkConn (nextConn s0) username) as ->.
    { subst s. simpl in E. rewrite lookup_insert_eq in E. by injection E as <-. }
    split; [done|].
    assert (effects_since s0 s = [Handshake (MkConn (nextConn s0) username)])
      as Heff by (subst s; by apply effects_since_app).
    unfold effects_since in *. simpl. rewrite Heff.
    split; [done|]. unfold handshakes; simpl. by rewrite bool_decide_true.
Qed.

Lemma connect_reuses_existing_entry_witness :
  let s := (connect "alice" 0 true init).1 in
  let s' := (connect "alice" 7 true s).1 in
  (connect "alice" 7 true s).2 = true ∧
  effects_since s s' = [] ∧
  effects_since init s' = [Handshake (MkConn 0 "alice")].
Proof.
  intros s s'.
  pose proof (connect_reuses_existing_entry s "alice"
                {| connection := MkConn 0 "alice"; lastActivity := 0 |}
                7 true eq_refl) as (H1 & H2 & _ & _ & _ & H3).
  split; [exact H1|]. split; [exact H2|].
  apply (H3 init 0); reflexivity.
Defined.

(** The state after each kind of task, field by field. *)
Lemma connect_absent_facts (k : nat) (u : string) (now : Z) (s : State) :
  connections s !! u = None →
  let c := MkConn (nextConn s) u in
  let s' := step (Connect k u now) s in
  trace s' = trace s ++ [Handshake c] ∧
  connections s' = <[u := {| connection := c; lastActivity := now |}]>
                     (connections s) ∧
  awaiting s' = awaiting s ++ [(k, c)] ∧
  nextConn s' = S (nextConn s) ∧
  roomClients s' = roomClients s.
Proof. intros E c s'. subst s'. by rewrite (step_connect_absent _ _ _ _ E). Qed.

Lemma connect_present_facts (k : nat) (u : string) (now : Z) (s : State)
    (e : Entry) :
  connections s !! u = Some e →
  let s' := step (Connect k u now) s in
  trace s' = trace s ++ [Resolved k true] ∧
  connections s' = alter (touch now) u (connections s) ∧
  awaiting s' = awaiting s ∧
  nextConn s' = nextConn s ∧
  roomClients s' = roomClients s.
Proof. intros E s'. subst s'. by rewrite (step_connect_present _ _ _ _ _ E). Qed.

Lemma settle_facts (c : Conn) (ok : bool) (s : State) (k : nat)
    (rest : list (nat * Conn)) :
  take_awaiting c (awaiting s) = Some (k, rest) →
  let s' := step (Settle c ok) s in
  trace s' = trace s ++ [Resolved k ok] ∧
  connections s' = (if ok then connections s
                    else delete (conn_username c) (connections s)) ∧
  awaiting s' = rest ∧
  nextConn s' = nextConn s ∧
  roomClients s' = roomClients s.
Proof.
  intros E s'. subst s'. rewrite (step_settle _ _ _ _ _ E). by destruct ok.
Qed.

Lemma disconnect_present_facts (u : string) (outcome : Conn → Completion)
    (s : State) (e : Entry) :
  connections s !! u = Some e →
  let s' := step (Disconnect u outcome) s in
  trace s' = trace s ++ [Teardown (connection e)] ∧
  connections s' = delete u (connections s) ∧
  awaiting s' = awaiting s ∧
  nextConn s' = nextConn s ∧
  roomClients s' = roomClients s.
Proof.
  intros E s'. subst s'. simpl. by rewrite (disconnect_present _ _ _ _ E).
Qed.

(** A call that has just been suspended on the handshake of a new
    connection is the one the settling of that handshake resumes. *)
Lemma take_awaiting_after_connect (ts : list Task) (k : nat) (u : string) :
  let s := run ts init in
  take_awaiting (MkConn (nextConn s) u) (awaiting s ++ [(k, MkConn (nextConn s) u)])
    = Some (k, awaiting s).
Proof.
  intros s. apply take_awaiting_fresh. intros k'.
  apply next_connection_not_awaited.
Qed.

(** What the upstream fires on a connection reaches the room of that
    connection only and leaves the suspended calls and the counters
    alone. *)
Lemma run_fires (c : Conn) (evs : list (RawEvent * Z * Z)) (s : State) :
  let s' := run (fires c evs) s in
  awaiting s' = awaiting s ∧
  roomClients s' = roomClients s ∧
  ∃ es, trace s' = trace s ++ es ∧ Forall (emits_to (conn_username c)) es.
Proof.
  revert s. induction evs as [|[[ev now] rnd] evs IH]; intros s; cbv zeta.
  - split_and!; [done|done|]. exists []. by rewrite app_nil_r.
  - change (run (fires c (((ev, now), rnd) :: evs)) s)
      with (run (fires c evs) (handle c ev now rnd s)).
    destruct (IH (handle c ev now rnd s)) as (-> & -> & es2 & -> & H2).
    destruct (handle_frame c ev now rnd s) as (-> & _ & ->).
    destruct (handle_trace c ev now rnd s) as (es1 & -> & H1).
    split_and!; [done|done|].
    exists (es1 ++ es2). rewrite <- app_assoc. split; [done|].
    by apply Forall_app.
Qed.

(** C5, as the code has it.  [connect(username)] on a pool without
    [username], when the upstream handshake fails: the call returns
    [false] and no entry for [username] is left in the pool.  The
    failure path of [connect] itself, its [catch] block, emits
    nothing: it gives [false] to the caller and that is all; with no
    upstream event in between, the only effects are the handshake and
    that [false].  But the handlers are registered on the connection
    before the handshake starts, so what the upstream fires while the
    handshake is failing is broadcast, to the room [username] and to
    no other: an [error] event gives one [tiktok_error] there.  The
    [catch] block behaves the same for every suspended [connect]
    call, whatever ran while it was suspended. *)
Theorem failed_handshake_removes_entry
    (ts : list Task) (username : string) (caller : nat) (now : Z)
    (evs : list (RawEvent * Z * Z)) :
  let s := run ts init in
  connections s !! username = None →
  let c := MkConn (nextConn s) username in
  let s1 := step (Connect caller username now) s in
  let s2 := run (fires c evs) s1 in
  let s3 := step (Settle c false) s2 in
  (connect username now false s).2 = false ∧
  connections (connect username now false s).1 !! username = None ∧
  effects_since s (connect username now false s).1 = [Handshake c] ∧
  effects_since s s1 = [Handshake c] ∧
  Forall (emits_to username) (effects_since s1 s2) ∧
  (∀ message now' rnd,
     evs = [(error message, now', rnd)] →
     effects_since s1 s2 = [Emit username (tiktok_error message now')]) ∧
  (evs = [] → effects_since s s3 = [Handshake c; Resolved caller false]) ∧
  effects_since s2 s3 = [Resolved caller false] ∧
  connections s3 !! username = None ∧
  roomClients s3 = roomClients s ∧
  (∀ s' c' k rest,
     take_awaiting c' (awaiting s') = Some (k, rest) →
     let s'' := step (Settle c' false) s' in
     effects_since s' s'' = [Resolved k false] ∧
     connections s'' !! conn_username c' = None).
Proof.
  intros s E c s1 s2 s3.
  destruct (connect_absent_facts caller username now s E)
    as (Ht1 & Hc1 & Ha1 & Hn1 & Hr1).
  fold c s1 in Ht1, Hc1, Ha1, Hn1, Hr1.
  destruct (run_fires c evs s1) as (Ha2 & Hr2 & es & Ht2 & Hes).
  fold s2 in Ha2, Hr2, Ht2. simpl in Hes.
  assert (take_awaiting c (awaiting s2) = Some (caller, awaiting s)) as Htake.
  { rewrite Ha2, Ha1. apply take_awaiting_after_connect. }
  destruct (settle_facts c false s2 caller _ Htake)
    as (Ht3 & Hc3 & Ha3 & Hn3 & Hr3).
  fold s3 in Ht3, Hc3, Ha3, Hn3, Hr3.
  unfold connect. rewrite (connect_start_absent _ _ _ E). simpl connect_finish.
  split_and!.
  - done.
  - simpl. apply lookup_delete_eq.
  - by apply effects_since_app.
  - by apply effects_since_app.
  - by rewrite (effects_since_app _ _ _ Ht2).
  - intros message now' rnd Hevs. apply effects_since_app.
    unfold s2. rewrite Hevs. done.
  - intros Hevs. apply effects_since_app. rewrite Ht3.
    unfold s2. rewrite Hevs. simpl run. rewrite Ht1.
    by rewrite <- app_assoc.
  - by apply effects_since_app.
  - rewrite Hc3. apply lookup_delete_eq.
  - by rewrite Hr3, Hr2.
  - intros s' c' k rest T. cbv zeta.
    destruct (settle_facts c' false s' k rest T) as (Ht & Hc & _).
    split; [by apply effects_since_app|]. rewrite Hc. apply lookup_delete_eq.
Qed.

Lemma failed_handshake_removes_entry_witness :
  let c := MkConn 0 "alice" in
  let s1 := step (Connect 1 "alice" 0) init in
  let s2 := run (fires c [(error (JStr "offline"), 1, 0)]) s1 in
  let s3 := step (Settle c false) s2 in
  (connect "alice" 0 false init).2 = false ∧
  effects_since s1 s2 = [Emit "alice" (tiktok_error (JStr "offline") 1)] ∧
  effects_since s2 s3 = [Resolved 1 false] ∧
  connections s3 !! "alice" = None.
Proof.
  intros c s1 s2 s3.
  pose proof (failed_handshake_removes_entry [] "alice" 1 0
                [(error (JStr "offline"), 1, 0)] eq_refl)
    as (H1 & _ & _ & _ & _ & H6 & _ & H8 & H9 & _).
  split; [exact H1|]. split; [exact (H6 _ _ _ eq_refl)|].
  split; [exact H8 | exact H9].
Defined.

(** C5, as the claim words it, fails.  [connect("alice")] starts its
    handshake, the upstream fires [error] on the connection, and the
    handshake fails: the [error] handler, registered before the
    handshake, broadcasts [tiktok_error] to room "alice", where a
    socket that joined the room receives it.  The caller is told
    [false] and the entry is removed, but the failure was not
    surfaced to the caller alone. *)
Lemma failed_handshake_broadcast_counterexample :
  let c := MkConn 0 "alice" in
  let rooms : gmap string (gset nat) := join 7 "alice" ∅ in
  let s3 := run [Connect 1 "alice" 0;
                 Upstream c (error (JStr "offline")) 1 0;
                 Settle c false] init in
  effects_since init s3
    = [Handshake c; Emit "alice" (tiktok_error (JStr "offline") 1);
       Resolved 1 false] ∧
  ¬ Forall (λ e, is_emit e = false) (effects_since init s3) ∧
  7%nat ∈ delivered rooms (effects_since init s3) ∧
  connections s3 !! "alice" = None.
Proof.
  intros c rooms s3.
  assert (effects_since init s3
          = [Handshake c; Emit "alice" (tiktok_error (JStr "offline") 1);
             Resolved 1 false]) as Heff by reflexivity.
  split_and!.
  - exact Heff.
  - rewrite Heff. intros H.
    apply Forall_cons in H as [_ H]. apply Forall_cons in H as [H _].
    discriminate H.
  - rewrite Heff. unfold delivered. simpl.
    apply elem_of_union_r, elem_of_union_l.
    unfold members, rooms, join. rewrite lookup_insert_eq. simpl.
    apply elem_of_union_l, elem_of_singleton. reflexivity.
  - reflexivity.
Qed.

(** C6. [disconnect(username)] always returns normally.  Without an
    entry for [username] it changes nothing.  With an entry it calls
    the upstream teardown of the entry's connection once and removes
    the entry, also when the teardown throws; the other entries and
    the room counters stay as they were.  A second [disconnect] of the
    same name changes nothing. *)
Theorem disconnect_total_and_idempotent
    (username : string) (outcome : Conn → Completion) (s : State) :
  let s' := (disconnect username outcome s).1 in
  (disconnect username outcome s).2 = Returns ∧
  (connections s !! username = None → s' = s) ∧
  (∀ e, connections s !! username = Some e →
        effects_since s s' = [Teardown (connection e)] ∧
        connections s' = delete username (connections s) ∧
        roomClients s' = roomClients s) ∧
  connections s' !! username = None ∧
  (∀ u, u ≠ username → connections s' !! u = connections s !! u) ∧
  (∀ outcome', disconnect username outcome' s' = (s', Returns)).
Proof.
  intros s'.
  assert (connections s' !! username = None) as Hgone.
  { subst s'. destruct (connections s !! username) as [e|] eqn:E.
    - rewrite (disconnect_present _ _ _ _ E). simpl. apply lookup_delete_eq.
    - by rewrite (disconnect_absent _ _ _ E). }
  split_and!.
  - apply disconnect_returns.
  - intros E. subst s'. by rewrite (disconnect_absent _ _ _ E).
  - intros e E. subst s'. rewrite (disconnect_present _ _ _ _ E). simpl.
    split_and!; [by apply effects_since_app|done|done].
  - exact Hgone.
  - intros u Hu. subst s'. destruct (connections s !! username) as [e|] eqn:E.
    + rewrite (disconnect_present _ _ _ _ E). simpl. by rewrite lookup_delete_ne.
    + by rewrite (disconnect_absent _ _ _ E).
  - intros outcome'. by apply disconnect_absent.
Qed.

Lemma disconnect_total_and_idempotent_witness :
  let s := (connect "alice" 0 true init).1 in
  let s' := (disconnect "alice" (λ _, Throws) s).1 in
  effects_since s s' = [Teardown (MkConn 0 "alice")] ∧
  connections s' = delete "alice" (connections s) ∧
  (disconnect "bob" (λ _, Throws) s).1 = s.
Proof.
  intros s s'.
  pose proof (disconnect_total_and_idempotent "alice" (λ _, Throws) s)
    as (_ & _ & H & _).
  pose proof (disconnect_total_and_idempotent "bob" (λ _, Throws) s)
    as (_ & H0 & _).
  destruct (H {| connection := MkConn 0 "alice"; lastActivity := 0 |} eq_refl)
    as (H1 & H2 & _).
  split; [exact H1|]. split; [exact H2|]. apply H0. reflexivity.
Defined.

(** C3, as the code has it.  [disconnect(username)] while a
    [connect(username)] is suspended on its handshake calls the
    upstream teardown of the connection that is still connecting and
    removes the entry at once.  When the handshake then succeeds, the
    suspended call returns [true] and does nothing else: no teardown
    follows and the pool is not touched, so it still has no entry for
    [username]. *)
Theorem disconnect_during_connect
    (ts : list Task) (username : string) (caller : nat) (now : Z)
    (outcome : Conn → Completion) :
  let s := run ts init in
  connections s !! username = None →
  let c := MkConn (nextConn s) username in
  let s1 := step (Connect caller username now) s in
  let s2 := step (Disconnect username outcome) s1 in
  let s3 := step (Settle c true) s2 in
  (caller, c) ∈ awaiting s1 ∧
  effects_since s1 s2 = [Teardown c] ∧
  connections s2 !! username = None ∧
  (caller, c) ∈ awaiting s2 ∧
  effects_since s2 s3 = [Resolved caller true] ∧
  connections s3 = connections s2 ∧
  connections s3 !! username = None.
Proof.
  intros s E c s1 s2 s3.
  destruct (connect_absent_facts caller username now s E)
    as (Ht1 & Hc1 & Ha1 & Hn1 & Hr1).
  fold c s1 in Ht1, Hc1, Ha1, Hn1, Hr1.
  assert (connections s1 !! username
          = Some {| connection := c; lastActivity := now |}) as E1.
  { rewrite Hc1. apply lookup_insert_eq. }
  destruct (disconnect_present_facts username outcome s1 _ E1)
    as (Ht2 & Hc2 & Ha2 & Hn2 & Hr2).
  fold s2 in Ht2, Hc2, Ha2, Hn2, Hr2. simpl in Ht2.
  assert (take_awaiting c (awaiting s2) = Some (caller, awaiting s)) as Htake.
  { rewrite Ha2, Ha1. apply take_awaiting_after_connect. }
  destruct (settle_facts c true s2 caller _ Htake)
    as (Ht3 & Hc3 & Ha3 & Hn3 & Hr3).
  fold s3 in Ht3, Hc3, Ha3, Hn3, Hr3.
  assert (connections s2 !! username = None) as E2.
  { rewrite Hc2. apply lookup_delete_eq. }
  split_and!.
  - rewrite Ha1. apply elem_of_app. right. by apply list_elem_of_singleton.
  - by apply effects_since_app.
  - exact E2.
  - rewrite Ha2, Ha1. apply elem_of_app. right. by apply list_elem_of_singleton.
  - by apply effects_since_app.
  - exact Hc3.
  - by rewrite Hc3.
Qed.

Lemma disconnect_during_connect_witness :
  let c := MkConn 0 "alice" in
  let s1 := step (Connect 1 "alice" 0) init in
  let s2 := step (Disconnect "alice" (λ _, Returns)) s1 in
  let s3 := step (Settle c true) s2 in
  effects_since s1 s2 = [Teardown c] ∧
  effects_since s2 s3 = [Resolved 1 true] ∧
  connections s3 !! "alice" = None.
Proof.
  intros c s1 s2 s3.
  pose proof (disconnect_during_connect [] "alice" 1 0 (λ _, Returns) eq_refl)
    as (_ & H1 & _ & _ & H2 & _ & H3).
  split; [exact H1|]. split; [exact H2 | exact H3].
Defined.

(** C3, as the claim words it, fails.  A [connect("alice")] is
    suspended on its handshake, [disconnect("alice")] runs, and the
    handshake then succeeds: resuming the call tears nothing down (no
    [Teardown] is among its effects), and the connection, which is no
    longer in the pool, still delivers what the upstream sends to the
    room. *)
Lemma disconnect_during_connect_counterexample :
  let c := MkConn 0 "alice" in
  let s1 := step (Connect 1 "alice" 0) init in
  let s2 := step (Disconnect "alice" (λ _, Returns)) s1 in
  let s3 := step (Settle c true) s2 in
  let s4 := step (Upstream c (connected (JStr "room")) 9 0) s3 in
  (1%nat, c) ∈ awaiting s1 ∧
  ¬ (Teardown c ∈ effects_since s2 s3 ∧ connections s3 !! "alice" = None) ∧
  effects_since s2 s3 = [Resolved 1 true] ∧
  effects_since s3 s4 = [Emit "alice" (tiktok_connected (JStr "room") 9)].
Proof.
  intros c s1 s2 s3 s4. split_and!.
  - apply list_elem_of_singleton. reflexivity.
  - intros [Hin _]. vm_compute in Hin.
    apply list_elem_of_singleton in Hin. discriminate Hin.
  - reflexivity.
  - reflexivity.
Qed.

(** C10. While a [connect(username)] is suspended on its handshake, a
    second [connect(username)] returns [true] at once: it finds the
    entry in the pool, starts nothing, waits for nothing and leaves
    the first call suspended.  When the handshake then fails, the
    first call returns [false] and the entry is removed: the second
    caller was told [true] for a connection that never came up.  The
    [true] depends on the presence of the entry alone: in any state
    with an entry for [username], [connect] answers [true] at once. *)
Theorem second_connect_true_before_handshake_fails
    (ts : list Task) (username : string) (caller1 caller2 : nat)
    (now1 now2 : Z) :
  let s := run ts init in
  connections s !! username = None →
  let c := MkConn (nextConn s) username in
  let s1 := step (Connect caller1 username now1) s in
  let s2 := step (Connect caller2 username now2) s1 in
  let s3 := step (Settle c false) s2 in
  (caller1, c) ∈ awaiting s1 ∧
  effects_since s1 s2 = [Resolved caller2 true] ∧
  awaiting s2 = awaiting s1 ∧
  effects_since s2 s3 = [Resolved caller1 false] ∧
  connections s3 !! username = None ∧
  effects_since s s3
    = [Handshake c; Resolved caller2 true; Resolved caller1 false] ∧
  (∀ s' e, connections s' !! username = Some e →
     effects_since s' (step (Connect caller2 username now2) s')
       = [Resolved caller2 true]).
Proof.
  intros s E c s1 s2 s3.
  destruct (connect_absent_facts caller1 username now1 s E)
    as (Ht1 & Hc1 & Ha1 & Hn1 & Hr1).
  fold c s1 in Ht1, Hc1, Ha1, Hn1, Hr1.
  assert (connections s1 !! username
          = Some {| connection := c; lastActivity := now1 |}) as E1.
  { rewrite Hc1. apply lookup_insert_eq. }
  destruct (connect_present_facts caller2 username now2 s1 _ E1)
    as (Ht2 & Hc2 & Ha2 & Hn2 & Hr2).
  fold s2 in Ht2, Hc2, Ha2, Hn2, Hr2.
  assert (take_awaiting c (awaiting s2) = Some (caller1, awaiting s)) as Htake.
  { rewrite Ha2, Ha1. apply take_awaiting_after_connect. }
  destruct (settle_facts c false s2 caller1 _ Htake)
    as (Ht3 & Hc3 & Ha3 & Hn3 & Hr3).
  fold s3 in Ht3, Hc3, Ha3, Hn3, Hr3.
  split_and!.
  - rewrite Ha1. apply elem_of_app. right. by apply list_elem_of_singleton.
  - by apply effects_since_app.
  - exact Ha2.
  - by apply effects_since_app.
  - rewrite Hc3. apply lookup_delete_eq.
  - apply effects_since_app. rewrite Ht3, Ht2, Ht1.
    by rewrite <- !app_assoc.
  - intros s' e E'. apply effects_since_app.
    by destruct (connect_present_facts caller2 username now2 s' e E').
Qed.

Lemma second_connect_true_before_handshake_fails_witness :
  let c := MkConn 0 "alice" in
  let s3 := run [Connect 1 "alice" 0; Connect 2 "alice" 1; Settle c false]
                init in
  effects_since init s3 = [Handshake c; Resolved 2 true; Resolved 1 false] ∧
  connections s3 !! "alice" = None.
Proof.
  intros c s3.
  pose proof (second_connect_true_before_handshake_fails
                [] "alice" 1 2 0 1 eq_refl) as (_ & _ & _ & _ & H1 & H2 & _).
  split; [exact H2 | exact H1].
Defined.

(** ** Tasks of other streamers *)

Lemma handshakes_emits (u room : string) (es : list Effect) :
  Forall (emits_to room) es → handshakes u es = 0%nat.
Proof. unfold handshakes. induction 1 as [|e es [ev ->] _ IH]; done. Qed.

Lemma updateActivity_other (u v : string) (now : Z) (s : State) :
  u ≠ v → connections (updateActivity v now s) !! u = connections s !! u.
Proof.
  intros Hne. unfold updateActivity. case_match; [|done].
  simpl. by rewrite lookup_alter_ne.
Qed.

Lemma handle_other (u : string) (c : Conn) (ev : RawEvent) (now rnd : Z)
    (s : State) :
  conn_username c ≠ u →
  connections (handle c ev now rnd s) !! u = connections s !! u.
Proof.
  intros Hne.
  pose proof (updateActivity_other u (conn_username c) now s
                (not_eq_sym Hne)) as Hu.
  destruct ev as [d|d|d|d|r| |m]; unfold handle.
  - unfold on_chat, perform. repeat case_match; exact Hu.
  - exact Hu.
  - unfold on_social, perform. repeat case_match; (exact Hu || done).
  - exact Hu.
  - done.
  - simpl. by rewrite lookup_delete_ne.
  - done.
Qed.

Lemma settle_trace (u : string) (c : Conn) (ok : bool) (s : State) :
  ∃ es, trace (step (Settle c ok) s) = trace s ++ es ∧
        handshakes u es = 0%nat.
Proof.
  destruct (take_awaiting c (awaiting s)) as [[k rest]|] eqn:T.
  - destruct (settle_facts c ok s k rest T) as (Ht & _). by eexists.
  - simpl. rewrite T. exists []. by rewrite app_nil_r.
Qed.

(** A task of another streamer keeps the entry of [u], keeps the
    calls suspended on handshakes of [u], and starts no handshake for
    [u]. *)
Lemma step_other_tenant (u : string) (t : Task) (s : State) :
  other_tenant u t →
  connections (step t s) !! u = connections s !! u ∧
  (∀ k c, conn_username c = u → (k, c) ∈ awaiting s →
          (k, c) ∈ awaiting (step t s)) ∧
  ∃ es, trace (step t s) = trace s ++ es ∧ handshakes u es = 0%nat.
Proof.
  destruct t as [k' u' now|c' ok|u' o|c' ev now rnd|u'|u'|now o];
    intros Hother; simpl in Hother.
  - destruct (connections s !! u') as [e|] eqn:E.
    + destruct (connect_present_facts k' u' now s e E) as (Ht & -> & -> & _).
      split_and!; [by rewrite lookup_alter_ne|done|by eexists].
    + destruct (connect_absent_facts k' u' now s E) as (Ht & -> & -> & _).
      split_and!.
      * by rewrite lookup_insert_ne.
      * intros k c _ Hin. apply elem_of_app. by left.
      * eexists; split; [exact Ht|].
        unfold handshakes; simpl. by rewrite bool_decide_false.
  - destruct (take_awaiting c' (awaiting s)) as [[k' rest]|] eqn:T.
    + destruct (settle_facts c' ok s k' rest T) as (Ht & -> & -> & _).
      split_and!.
      * destruct ok; [done|]. by rewrite lookup_delete_ne.
      * intros k c Hc Hin.
        apply (take_awaiting_keeps _ _ _ _ (k, c) T Hin). simpl. congruence.
      * by eexists.
    + simpl. rewrite T. split_and!; [done|done|].
      exists []. by rewrite app_nil_r.
  - destruct (connections s !! u') as [e|] eqn:E.
    + destruct (disconnect_present_facts u' o s e E) as (Ht & -> & -> & _).
      split_and!; [by rewrite lookup_delete_ne|done|by eexists].
    + simpl. rewrite (disconnect_absent _ _ _ E). simpl.
      split_and!; [done|done|]. exists []. by rewrite app_nil_r.
  - simpl. destruct (handle_frame c' ev now rnd s) as (_ & _ & ->).
    split_and!; [by apply handle_other|done|].
    destruct (handle_trace c' ev now rnd s) as (es & Ht & Hes).
    exists es. split; [done|]. by eapply handshakes_emits.
  - simpl. split_and!; [done|done|]. exists []. by rewrite app_nil_r.
  - simpl. unfold removeClientFromRoom.
    case_match; (split_and!; [done|done|]; exists []; by rewrite app_nil_r).
  - done.
Qed.

Lemma run_other_tenant (u : string) (ts : list Task) (s : State) :
  Forall (other_tenant u) ts →
  connections (run ts s) !! u = connections s !! u ∧
  (∀ k c, conn_username c = u → (k, c) ∈ awaiting s →
          (k, c) ∈ awaiting (run ts s)) ∧
  ∃ es, trace (run ts s) = trace s ++ es ∧ handshakes u es = 0%nat.
Proof.
  intros H. revert s. induction H as [|t ts Ht _ IH]; intros s.
  - split_and!; [done|done|]. exists []. by rewrite app_nil_r.
  - change (run (t :: ts) s) with (run ts (step t s)).
    destruct (IH (step t s)) as (-> & Ha & es2 & -> & H2).
    destruct (step_other_tenant u t s Ht) as (-> & Ha1 & es1 & -> & H1).
    split_and!.
    + done.
    + intros k c Hc Hin. by apply Ha, Ha1.
    + exists (es1 ++ es2). rewrite <- app_assoc. split; [done|].
      rewrite handshakes_app. lia.
Qed.

(** C2. Two [connect(username)] calls for a streamer who is not in
    the pool, the second one made while the first is suspended on its
    handshake (tasks of other streamers may run in between): the
    second call finds the entry the first one stored before
    suspending, starts no handshake, creates no connection object and
    returns [true] at once; the pool keeps the connection of the first
    call.  Whatever the outcome of the handshake, exactly one upstream
    handshake was started for [username]. *)
Theorem concurrent_connects_one_handshake
    (s : State) (username : string) (caller1 caller2 : nat) (now1 now2 : Z)
    (mid1 mid2 : list Task) (ok : bool) :
  connections s !! username = None →
  Forall (other_tenant username) mid1 →
  Forall (other_tenant username) mid2 →
  let c := MkConn (nextConn s) username in
  let s1 := run mid1 (step (Connect caller1 username now1) s) in
  let s2 := step (Connect caller2 username now2) s1 in
  let s3 := step (Settle c ok) (run mid2 s2) in
  (caller1, c) ∈ awaiting s1 ∧
  effects_since s1 s2 = [Resolved caller2 true] ∧
  nextConn s2 = nextConn s1 ∧
  connection <$> connections s2 !! username = Some c ∧
  handshakes username (effects_since s s2) = 1%nat ∧
  handshakes username (effects_since s s3) = 1%nat.
Proof.
  intros E Hmid1 Hmid2 c s1 s2 s3.
  destruct (connect_absent_facts caller1 username now1 s E)
    as (Ht0 & Hc0 & Ha0 & _).
  fold c in Ht0, Hc0, Ha0.
  set (s0 := step (Connect caller1 username now1) s) in *.
  destruct (run_other_tenant username mid1 s0 Hmid1)
    as (Hc1 & Ha1 & es1 & Ht1 & Hh1).
  fold s1 in Hc1, Ha1, Ht1.
  assert (connections s1 !! username
          = Some {| connection := c; lastActivity := now1 |}) as E1.
  { rewrite Hc1, Hc0. apply lookup_insert_eq. }
  destruct (connect_present_facts caller2 username now2 s1 _ E1)
    as (Ht2 & Hc2 & Ha2 & Hn2 & _).
  fold s2 in Ht2, Hc2, Ha2, Hn2.
  destruct (run_other_tenant username mid2 s2 Hmid2)
    as (_ & _ & es2 & Ht3 & Hh2).
  destruct (settle_trace username c ok (run mid2 s2)) as (es3 & Ht4 & Hh3).
  fold s3 in Ht4.
  assert (effects_since s s2
          = [Handshake c] ++ es1 ++ [Resolved caller2 true]) as Heff2.
  { apply effects_since_app. rewrite Ht2, Ht1, Ht0.
    by rewrite <- !app_assoc. }
  assert (handshakes username [Handshake c] = 1%nat) as Hone.
  { unfold handshakes; simpl. by rewrite bool_decide_true. }
  split_and!.
  - apply Ha1; [done|]. rewrite Ha0. apply elem_of_app. right.
    by apply list_elem_of_singleton.
  - by apply effects_since_app.
  - exact Hn2.
  - rewrite Hc2, lookup_alter_eq, E1. done.
  - rewrite Heff2, !handshakes_app, Hone, Hh1. done.
  - assert (effects_since s s3
            = [Handshake c] ++ es1 ++ [Resolved caller2 true] ++ es2 ++ es3)
      as ->.
    { apply effects_since_app. rewrite Ht4, Ht3, Ht2, Ht1, Ht0.
      by rewrite <- !app_assoc. }
    rewrite !handshakes_app, Hone, Hh1, Hh2, Hh3. done.
Qed.

Lemma concurrent_connects_one_handshake_witness :
  let c := MkConn 0 "alice" in
  let s3 := run [Connect 1 "alice" 0; AddClient "alice"; Connect 2 "bob" 1;
                 Connect 3 "alice" 2; RemoveClient "alice"; Settle c true]
                init in
  handshakes "alice" (effects_since init s3) = 1%nat.
Proof.
  intros c s3.
  refine (proj2 (proj2 (proj2 (proj2 (proj2
    (concurrent_connects_one_handshake init "alice" 1 3 0 2
       [AddClient "alice"; Connect 2 "bob" 1] [RemoveClient "alice"] true
       eq_refl _ _)))))).
  - repeat constructor. discriminate.
  - repeat constructor.
Defined.

(** ** The sweep of idle connections *)

Lemma isInactive_spec (now : Z) (s : State) (u : string) (e : Entry) :
  isInactive now s u e = true ↔
  getClientCount u s = 0 ∧ now - lastActivity e > 5 * 60 * 1000.
Proof.
  unfold isInactive, TIMEOUT. rewrite andb_true_iff, Z.eqb_eq, Z.gtb_gt.
  done.
Qed.

Lemma isInactive_frame (now : Z) (s s' : State) (u : string) (e : Entry) :
  roomClients s' = roomClients s →
  isInactive now s' u e = isInactive now s u e.
Proof.
  intros H. unfold isInactive. by rewrite (getClientCount_frame u s s' H).
Qed.

(** The loop over a list of distinct entries of the pool: it tears
    down the inactive ones, in order, and removes them. *)
Lemma sweep_spec (now : Z) (outcome : Conn → Completion) (s0 : State)
    (l : list (string * Entry)) (s : State) :
  roomClients s = roomClients s0 →
  NoDup l.*1 →
  (∀ u e, (u, e) ∈ l → connections s !! u = Some e) →
  let s' := foldl (sweepEntry now outcome) s l in
  trace s' = trace s ++
    List.map (λ kv, Teardown (connection kv.2))
      (List.filter (λ kv, isInactive now s0 kv.1 kv.2) l) ∧
  (∀ u, u ∉ l.*1 → connections s' !! u = connections s !! u) ∧
  (∀ u e, (u, e) ∈ l →
     connections s' !! u = if isInactive now s0 u e then None else Some e).
Proof.
  revert s. induction l as [|[u e] l IH]; intros s Hrc Hnd Hin; simpl.
  - split_and!; [by rewrite app_nil_r|done|].
    intros u e H. by apply elem_of_nil in H.
  - apply NoDup_cons in Hnd as [Hu Hnd]. simpl in Hu.
    assert (connections s !! u = Some e) as E by (apply Hin; by left).
    set (s1 := sweepEntry now outcome s (u, e)).
    assert (roomClients s1 = roomClients s0) as Hrc1.
    { rewrite <- Hrc. apply sweepEntry_frame. }
    assert (trace s1 = trace s ++
              (if isInactive now s0 u e then [Teardown (connection e)] else [])
            ∧ (∀ v, v ≠ u → connections s1 !! v = connections s !! v)
            ∧ connections s1 !! u
              = if isInactive now s0 u e then None else Some e)
      as (Ht1 & Hother1 & Hu1).
    { subst s1. unfold sweepEntry; simpl.
      rewrite (isInactive_frame now s0 s u e Hrc).
      destruct (isInactive now s0 u e).
      - rewrite (disconnect_present _ _ _ _ E). simpl.
        split_and!; [done| |apply lookup_delete_eq].
        intros v Hv. by rewrite lookup_delete_ne.
      - split_and!; [by rewrite app_nil_r|done|done]. }
    destruct (IH s1 Hrc1 Hnd) as (Ht & Hout & Hl).
    { intros v e' Hv. rewrite Hother1; [apply Hin; by right|].
      intros ->. apply Hu. apply list_elem_of_fmap. by exists (u, e'). }
    split_and!.
    + rewrite Ht, Ht1. destruct (isInactive now s0 u e); simpl.
      * by rewrite <- app_assoc.
      * by rewrite app_nil_r.
    + intros v Hv. apply not_elem_of_cons in Hv as [Hvu Hv].
      rewrite (Hout v Hv). by apply Hother1.
    + intros v e' Hv. apply elem_of_cons in Hv as [[= -> ->]|Hv].
      * rewrite (Hout u Hu). exact Hu1.
      * by apply Hl.
Qed.

Lemma checkInactiveConnections_spec (now : Z) (outcome : Conn → Completion)
    (s : State) :
  let s' := checkInactiveConnections now outcome s in
  trace s' = trace s ++
    List.map (λ kv, Teardown (connection kv.2))
      (List.filter (λ kv, isInactive now s kv.1 kv.2)
         (map_to_list (connections s))) ∧
  (∀ u, connections s !! u = None → connections s' !! u = None) ∧
  (∀ u e, connections s !! u = Some e →
     connections s' !! u = if isInactive now s u e then None else Some e).
Proof.
  intros s'.
  destruct (sweep_spec now outcome s (map_to_list (connections s)) s)
    as (Ht & Hout & Hl).
  - done.
  - apply NoDup_fst_map_to_list.
  - intros u e. apply elem_of_map_to_list.
  - split_and!.
    + exact Ht.
    + intros u E. subst s'. unfold checkInactiveConnections.
      rewrite Hout; [done|]. intros Hu.
      apply list_elem_of_fmap in Hu as ([u' e] & -> & Hin).
      apply elem_of_map_to_list in Hin. simpl in E. congruence.
    + intros u e E. apply Hl. by apply elem_of_map_to_list.
Qed.

(** C8. One run of [checkInactiveConnections]: the upstream teardowns
    it performs are those of the entries of the pool whose room has
    no client and whose last activity is more than 5 minutes old, one
    for each; these entries, and no others, leave the pool.  An entry
    whose room has a client stays, however old its last activity.  The
    timer that runs the sweep has a period of 60 seconds. *)
Theorem sweep_disconnects_idle_unsubscribed
    (now : Z) (outcome : Conn → Completion) (s : State) :
  let s' := checkInactiveConnections now outcome s in
  let idle u e :=
    getClientCount u s = 0 ∧ now - lastActivity e > 5 * 60 * 1000 in
  cleanupIntervalMs = 60 * 1000 ∧
  effects_since s s' =
    List.map (λ kv, Teardown (connection kv.2))
      (List.filter (λ kv, isInactive now s kv.1 kv.2)
         (map_to_list (connections s))) ∧
  (∀ c, Teardown c ∈ effects_since s s' ↔
        ∃ u e, connections s !! u = Some e ∧ connection e = c ∧ idle u e) ∧
  (∀ u, connections s' !! u = None ↔
        connections s !! u = None ∨
        ∃ e, connections s !! u = Some e ∧ idle u e) ∧
  (∀ u e, connections s !! u = Some e → ¬ idle u e →
          connections s' !! u = Some e) ∧
  (∀ u e, connections s !! u = Some e → 0 < getClientCount u s →
          connections s' !! u = Some e) ∧
  roomClients s' = roomClients s.
Proof.
  intros s' idle.
  destruct (checkInactiveConnections_spec now outcome s) as (Ht & Hnone & Hsome).
  fold s' in Ht, Hnone, Hsome.
  assert (effects_since s s' =
            List.map (λ kv, Teardown (connection kv.2))
              (List.filter (λ kv, isInactive now s kv.1 kv.2)
                 (map_to_list (connections s)))) as Heff
    by (by apply effects_since_app).
  assert (∀ u e, connections s !! u = Some e → ¬ idle u e →
                 connections s' !! u = Some e) as Hstay.
  { intros u e E Hidle. rewrite (Hsome u e E).
    destruct (isInactive now s u e) eqn:I; [|done].
    by apply isInactive_spec in I. }
  split_and!.
  - done.
  - exact Heff.
  - intros c. rewrite Heff, list_elem_of_In. split.
    + intros H. apply List.in_map_iff in H as ([u e] & [= <-] & Hin).
      apply List.filter_In in Hin as [Hin I].
      apply list_elem_of_In, elem_of_map_to_list in Hin.
      exists u, e. split_and!; [done|done|by apply isInactive_spec].
    + intros (u & e & E & <- & Hidle). apply List.in_map_iff.
      exists (u, e). split; [done|].
      apply List.filter_In. split.
      * by apply list_elem_of_In, elem_of_map_to_list.
      * by apply isInactive_spec.
  - intros u. destruct (connections s !! u) as [e|] eqn:E.
    + rewrite (Hsome u e E). destruct (isInactive now s u e) eqn:I.
      * split; [|done]. intros _. right. exists e.
        split; [done|by apply isInactive_spec].
      * split; [done|]. intros [|(e' & [= <-] & Hidle)]; [done|].
        apply isInactive_spec in Hidle. congruence.
    + rewrite (Hnone u E). split; [by left|done].
  - exact Hstay.
  - intros u e E Hpos. apply Hstay; [done|]. intros [H0 _]. lia.
  - apply sweep_frame.
Qed.

Lemma sweep_disconnects_idle_unsubscribed_witness :
  let s := run [Connect 1 "alice" 0; Connect 2 "bob" 0;
                Settle (MkConn 0 "alice") true; Settle (MkConn 1 "bob") true;
                AddClient "bob"] init in
  let s' := checkInactiveConnections 300001 (λ _, Returns) s in
  connections s' !! "alice" = None ∧
  connections s' !! "bob"
    = Some {| connection := MkConn 1 "bob"; lastActivity := 0 |}.
Proof.
  intros s s'.
  pose proof (sweep_disconnects_idle_unsubscribed 300001 (λ _, Returns) s)
    as (_ & _ & _ & H1 & _ & H2 & _).
  split.
  - apply H1. right.
    exists {| connection := MkConn 0 "alice"; lastActivity := 0 |}.
    split; [reflexivity|]. split; [reflexivity|reflexivity].
  - apply H2; reflexivity.
Defined.

(** ** Room isolation, for the whole service *)

Lemma delivered_no_emit (rooms : gmap string (gset nat)) (es : list Effect) :
  Forall (λ e, is_emit e = false) es → delivered rooms es = ∅.
Proof.
  unfold delivered. induction 1 as [|e es He _ IH]; simpl; [done|].
  destruct e; simplify_eq/=; by rewrite union_empty_l_L.
Qed.

(** Only upstream events emit: every other task leaves the rooms alone. *)
Lemma step_no_emit (t : Task) (s : State) :
  (∀ c ev now rnd, t ≠ Upstream c ev now rnd) →
  ∃ es, trace (step t s) = trace s ++ es ∧ Forall (λ e, is_emit e = false) es.
Proof.
  intros Hup. destruct t as [k u now|c ok|u o|c ev now rnd|u|u|now o].
  - destruct (connections s !! u) as [e|] eqn:E.
    + destruct (connect_present_facts k u now s e E) as (Ht & _).
      eexists; split; [exact Ht|]. by repeat constructor.
    + destruct (connect_absent_facts k u now s E) as (Ht & _).
      eexists; split; [exact Ht|]. by repeat constructor.
  - destruct (take_awaiting c (awaiting s)) as [[k rest]|] eqn:T.
    + destruct (settle_facts c ok s k rest T) as (Ht & _).
      eexists; split; [exact Ht|]. by repeat constructor.
    + simpl. rewrite T. exists []. by rewrite app_nil_r.
  - destruct (connections s !! u) as [e|] eqn:E.
    + destruct (disconnect_present_facts u o s e E) as (Ht & _).
      eexists; split; [exact Ht|]. by repeat constructor.
    + simpl. rewrite (disconnect_absent _ _ _ E). exists [].
      by rewrite app_nil_r.
  - by destruct (Hup c ev now rnd).
  - exists []. by rewrite app_nil_r.
  - simpl. unfold removeClientFromRoom.
    case_match; exists []; by rewrite app_nil_r.
  - destruct (checkInactiveConnections_spec now o s) as (Ht & _).
    eexists; split; [exact Ht|].
    apply Forall_forall. intros e He.
    apply list_elem_of_In, List.in_map_iff in He as (kv & <- & _). done.
Qed.

(** C1. For streamers [A ≠ B] and a socket that joined only room [B]:
    every event fired by an upstream connection that [connect(A)]
    created is emitted to room [A] alone, so it reaches members of
    room [A] only and never this socket; the connection the pool holds
    for [A] is such a connection; and the only tasks of the service
    that deliver anything to this socket are events of upstream
    connections created for [B]. *)
Theorem broadcast_reaches_only_own_room
    (rooms : gmap string (gset nat)) (A B : string) (socket : nat) :
  A ≠ B →
  joined_only rooms B socket →
  (∀ c ev now rnd s,
     conn_username c = A →
     let es := effects_since s (step (Upstream c ev now rnd) s) in
     Forall (emits_to A) es ∧
     delivered rooms es ⊆ members rooms A ∧
     socket ∉ delivered rooms es) ∧
  (∀ ts e, connections (run ts init) !! A = Some e →
           conn_username (connection e) = A) ∧
  (∀ t s, socket ∈ delivered rooms (effects_since s (step t s)) →
          ∃ c ev now rnd, t = Upstream c ev now rnd ∧ conn_username c = B).
Proof.
  intros Hne [_ Honly].
  assert (∀ c ev now rnd s,
            let es := effects_since s (step (Upstream c ev now rnd) s) in
            Forall (emits_to (conn_username c)) es ∧
            delivered rooms es ⊆ members rooms (conn_username c)) as Hup.
  { intros c ev now rnd s. simpl.
    destruct (handle_trace c ev now rnd s) as (es & Htr & Hes).
    rewrite (effects_since_app _ _ _ Htr).
    split; [done|]. by apply delivered_emits_to. }
  split_and!.
  - intros c ev now rnd s <- es. destruct (Hup c ev now rnd s) as [H1 H2].
    split_and!; [done|done|].
    intros Hin. apply H2, Honly in Hin. done.
  - intros ts e E. by apply (run_pool_keys_ok ts A e).
  - intros t s Hin.
    destruct t as [k u now|c ok|u o|c ev now rnd|u|u|now o];
      try (exfalso;
           edestruct step_no_emit as (es & Htr & Hes);
             [|rewrite (effects_since_app _ _ _ Htr),
                 (delivered_no_emit _ _ Hes) in Hin;
               by apply elem_of_empty in Hin];
           done).
    exists c, ev, now, rnd. split; [done|].
    destruct (Hup c ev now rnd s) as [_ H2]. by apply H2, Honly in Hin.
Qed.

Lemma broadcast_reaches_only_own_room_witness :
  let rooms : gmap string (gset nat) := join 7 "bob" (join 3 "alice" ∅) in
  let lion := gift (MkGiftData (MkUser (JStr "fan") (JStr "Fan") JNull)
                               (NNum 150) NUndefined (Some "Lion") None
                               (NNum 1)) in
  let s := run [Connect 3 "alice" 0; Settle (MkConn 0 "alice") true] init in
  7%nat ∉ delivered rooms
            (effects_since s (step (Upstream (MkConn 0 "alice") lion 5 0) s)).
Proof.
  intros rooms lion s.
  refine (proj2 (proj2 (proj1
    (broadcast_reaches_only_own_room rooms "alice" "bob" 7 _ _)
    (MkConn 0 "alice") lion 5 0 s eq_refl))).
  - discriminate.
  - split.
    + unfold rooms, members, join. rewrite lookup_insert_eq. simpl.
      apply elem_of_union_l, elem_of_singleton. reflexivity.
    + intros r. unfold rooms, members, join.
      rewrite lookup_insert. destruct (decide ("bob" = r)) as [<-|_].
      * reflexivity.
      * rewrite lookup_insert. destruct (decide ("alice" = r)) as [<-|_].
        -- simpl. unfold members. rewrite lookup_empty. simpl.
           rewrite elem_of_union, elem_of_singleton, elem_of_empty.
           intros [H|[]]. discriminate H.
        -- rewrite lookup_empty. simpl. rewrite elem_of_empty. intros [].
Defined.

(** ** The scenarios of the specification, run on the model *)

Example gift_lion_scenario :
  let fan := MkUser (JStr "fan") (JStr "Fan") JNull in
  let data := MkGiftData fan (NNum 150) NUndefined (Some "Lion") None (NNum 1) in
  let s := run [AddClient "alice"; Connect 3 "alice" 0;
                Settle (MkConn 0 "alice") true] init in
  effects_since s (step (Upstream (MkConn 0 "alice") (gift data) 5 0) s)
  = [Emit "alice" (tiktok_gift fan "Lion" 150 1 large data 5);
     Emit "alice" (gift_received fan "Lion" 150 1 large 5)].
Proof. reflexivity. Qed.

Example chat_hit_scenario :
  let fan := MkUser (JStr "fan") (JStr "Fan") JNull in
  let data := MkChatData fan (Some "  Hit  ") in
  let s := run [AddClient "alice"; Connect 3 "alice" 0;
                Settle (MkConn 0 "alice") true] init in
  effects_since s (step (Upstream (MkConn 0 "alice") (chat data) 5 9) s)
  = [Emit "alice" (tiktok_chat fan "hit" data 5);
     Emit "alice" (player_attack fan 14 5)].
Proof. reflexivity. Qed.

Example sweep_scenario :
  let s := run [Connect 1 "alice" 0; Connect 2 "bob" 0;
                Settle (MkConn 0 "alice") true; Settle (MkConn 1 "bob") true;
                AddClient "bob"] init in
  effects_since s (step (Tick 300001 (λ _, Throws)) s)
    = [Teardown (MkConn 0 "alice")] ∧
  effects_since s (step (Tick 300000 (λ _, Throws)) s) = [].
Proof. split; reflexivity. Qed.

(** * Further properties of the service and of its caller *)

(** ** Chat commands *)

Lemma on_chat_trace (u : string) (data : ChatData) (now rnd : Z) (s : State) :
  let m := normalizeComment (comment data) in
  trace (on_chat u data now rnd s) =
    trace s ++
    [Emit u (tiktok_chat (chat_user data) m data now)] ++
    (if (m =? "join")%string || (m =? "thamgia")%string
     then [Emit u (player_join (chat_user data) now)] else []) ++
    (if (m =? "hit")%string || (m =? "danh")%string || (m =? "attack")%string
     then [Emit u (player_attack (chat_user data) (rnd + 5) now)] else []).
Proof.
  intros m. unfold on_chat. fold m.
  destruct ((m =? "join")%string || (m =? "thamgia")%string);
    destruct ((m =? "hit")%string || (m =? "danh")%string
              || (m =? "attack")%string);
    simpl; rewrite updateActivity_trace, <- ?app_assoc; done.
Qed.

Lemma elem_of_if_singleton {A} (b : bool) (x y : A) :
  y ∈ (if b then [x] else []) ↔ b = true ∧ y = x.
Proof.
  destruct b.
  - rewrite list_elem_of_singleton. split; [done | by intros [_ ?]].
  - rewrite elem_of_nil. split; [done | by intros [? _]].
Qed.

(** X1. The chat handler always emits [tiktok_chat] first, with the
    comment lower-cased and trimmed.  [player_join] follows exactly
    when that comment is "join" or "thamgia", [player_attack] exactly
    when it is "hit", "danh" or "attack", never both, so a comment
    gives at most two events; the damage is [rnd + 5], between 5 and
    14 when [rnd] is a digit. *)
Theorem chat_commands
    (username : string) (data : ChatData) (now rnd : Z) (s : State) :
  let m := normalizeComment (comment data) in
  let user := chat_user data in
  let es := effects_since s (on_chat username data now rnd s) in
  let is_join := m = "join" ∨ m = "thamgia" in
  let is_attack := m = "hit" ∨ m = "danh" ∨ m = "attack" in
  head es = Some (Emit username (tiktok_chat user m data now)) ∧
  (Emit username (player_join user now) ∈ es ↔ is_join) ∧
  (∀ d, Emit username (player_attack user d now) ∈ es ↔
        is_attack ∧ d = rnd + 5) ∧
  ¬ (is_join ∧ is_attack) ∧
  (List.length es ≤ 2)%nat ∧
  (0 ≤ rnd ≤ 9 →
   ∀ d, Emit username (player_attack user d now) ∈ es → 5 ≤ d ≤ 14).
Proof.
  intros m user es is_join is_attack.
  set (j := (m =? "join")%string || (m =? "thamgia")%string).
  set (a := (m =? "hit")%string || (m =? "danh")%string
            || (m =? "attack")%string).
  assert (es = [Emit username (tiktok_chat user m data now)] ++
    (if j then [Emit username (player_join user now)] else []) ++
    (if a then [Emit username (player_attack user (rnd + 5) now)] else []))
    as Hes.
  { apply effects_since_app. apply on_chat_trace. }
  assert (j = true ↔ is_join) as Hj.
  { unfold j. rewrite orb_true_iff, !String.eqb_eq. done. }
  assert (a = true ↔ is_attack) as Ha.
  { unfold a. rewrite !orb_true_iff, !String.eqb_eq. unfold is_attack. tauto. }
  assert (¬ (is_join ∧ is_attack)) as Hexcl.
  { intros [[Hm|Hm] [Hm'|[Hm'|Hm']]]; rewrite Hm in Hm'; discriminate. }
  assert (∀ d, Emit username (player_attack user d now) ∈ es ↔
               is_attack ∧ d = rnd + 5) as Hatt.
  { intros d. rewrite Hes, !elem_of_app, !elem_of_if_singleton,
      list_elem_of_singleton, Ha.
    split.
    - intros [H|[[_ H]|[H1 H2]]]; [discriminate H|discriminate H|].
      injection H2 as ->. done.
    - intros [H ->]. right. right. done. }
  split_and!.
  - by rewrite Hes.
  - rewrite Hes, !elem_of_app, !elem_of_if_singleton,
      list_elem_of_singleton, Hj.
    split.
    + intros [H|[[H _]|[_ H]]]; [discriminate H|done|discriminate H].
    + intros H. right. left. done.
  - exact Hatt.
  - exact Hexcl.
  - rewrite Hes. destruct j eqn:J; destruct a eqn:A; simpl; try lia.
    exfalso. apply Hexcl. split; [by apply Hj | by apply Ha].
  - intros Hr d Hd. apply Hatt in Hd as [_ ->]. lia.
Qed.

Lemma chat_commands_witness :
  Emit "alice" (player_attack (MkUser JNull JNull JNull) 14 5)
    ∈ effects_since init
        (on_chat "alice"
           (MkChatData (MkUser JNull JNull JNull) (Some " ATTACK ")) 5 9 init).
Proof.
  pose proof (chat_commands "alice"
                (MkChatData (MkUser JNull JNull JNull) (Some " ATTACK "))
                5 9 init) as (_ & _ & H & _).
  apply H. split; [|reflexivity]. right. right. reflexivity.
Defined.

(** ** Normalisation of names and comments *)

Lemma lower_ascii_idemp (c : ascii) : lower_ascii (lower_ascii c) = lower_ascii c.
Proof. destruct c as [[] [] [] [] [] [] [] []]; reflexivity. Qed.

Lemma is_space_lower (c : ascii) : is_space (lower_ascii c) = is_space c.
Proof. destruct c as [[] [] [] [] [] [] [] []]; reflexivity. Qed.

Lemma toLowerCase_idemp (s : string) : toLowerCase (toLowerCase s) = toLowerCase s.
Proof. induction s as [|c s IH]; simpl; [done|]. by rewrite lower_ascii_idemp, IH. Qed.

Lemma toLowerCase_app (s t : string) :
  toLowerCase (s ++ t) = (toLowerCase s ++ toLowerCase t)%string.
Proof. induction s as [|c s IH]; simpl; [done|]. by rewrite IH. Qed.

Lemma trimStart_lower (s : string) :
  trimStart (toLowerCase s) = toLowerCase (trimStart s).
Proof.
  induction s as [|c s IH]; simpl; [done|].
  rewrite is_space_lower. by destruct (is_space c).
Qed.

Lemma trimEnd_lower (s : string) :
  trimEnd (toLowerCase s) = toLowerCase (trimEnd s).
Proof.
  induction s as [|c s IH]; simpl; [done|].
  rewrite IH, is_space_lower.
  destruct (trimEnd s); simpl; [by destruct (is_space c)|done].
Qed.

Lemma trimEnd_idemp (s : string) : trimEnd (trimEnd s) = trimEnd s.
Proof.
  induction s as [|c s IH]; simpl; [done|].
  destruct (trimEnd s) as [|c' r] eqn:E.
  - destruct (is_space c) eqn:Hc; simpl; [done|]. by rewrite Hc.
  - change (trimEnd (String c (String c' r))) with
      (match trimEnd (String c' r) with
       | EmptyString => if is_space c then EmptyString else String c EmptyString
       | r' => String c r'
       end).
    by rewrite IH.
Qed.

Lemma trimStart_idemp (s : string) : trimStart (trimStart s) = trimStart s.
Proof.
  induction s as [|c s IH]; simpl; [done|].
  destruct (is_space c) eqn:Hc; [done|]. simpl. by rewrite Hc.
Qed.

Lemma trimStart_trimEnd (s : string) :
  trimStart (trimEnd s) = trimEnd (trimStart s).
Proof.
  induction s as [|c s IH]; simpl; [done|].
  destruct (is_space c) eqn:Hc.
  - rewrite <- IH. destruct (trimEnd s) as [|c' r]; simpl; [done|].
    by rewrite Hc.
  - change (trimEnd (String c s)) with
      (match trimEnd s with
       | EmptyString => if is_space c then EmptyString else String c EmptyString
       | r' => String c r'
       end).
    rewrite Hc. destruct (trimEnd s); simpl; by rewrite Hc.
Qed.

Lemma trim_idemp (s : string) : trim (trim s) = trim s.
Proof.
  unfold trim.
  by rewrite (trimStart_trimEnd (trimStart s)), trimStart_idemp,
    trimEnd_idemp.
Qed.

Lemma trimEnd_snoc_space (s : string) (c : ascii) :
  is_space c = true → trimEnd (s ++ String c "") = trimEnd s.
Proof.
  intros Hc. induction s as [|c' s IH]; simpl.
  - by rewrite Hc.
  - by rewrite IH.
Qed.

Lemma normalizeUsername_idemp (s : string) :
  normalizeUsername (normalizeUsername s) = normalizeUsername s.
Proof.
  unfold normalizeUsername, trim.
  rewrite <- trimEnd_lower, <- trimStart_lower, toLowerCase_idemp.
  apply trim_idemp.
Qed.

Lemma normalizeComment_Some (s : string) :
  normalizeComment (Some s) = str_or (Some (normalizeUsername s)) "".
Proof. reflexivity. Qed.

(** X2. Normalising a name or a comment twice is the same as
    normalising it once, and white space before or after the text
    does not change the result: a name that was already normalised,
    or that differs only in surrounding white space, names the same
    room and the same command. *)
Theorem normalization_stable :
  (∀ s, normalizeUsername (normalizeUsername s) = normalizeUsername s) ∧
  (∀ c, normalizeComment (Some (normalizeComment c)) = normalizeComment c) ∧
  (∀ c s, is_space c = true →
          normalizeUsername (String c s) = normalizeUsername s ∧
          normalizeUsername (s ++ String c "")%string = normalizeUsername s) ∧
  (∀ c s, is_space c = true →
          normalizeComment (Some (String c s)) = normalizeComment (Some s) ∧
          normalizeComment (Some (s ++ String c "")%string)
            = normalizeComment (Some s)).
Proof.
  assert (∀ c s, is_space c = true →
            normalizeUsername (String c s) = normalizeUsername s ∧
            normalizeUsername (s ++ String c "")%string = normalizeUsername s) as Hpad.
  { intros c s Hc. unfold normalizeUsername, trim. split.
    - simpl. by rewrite is_space_lower, Hc.
    - rewrite toLowerCase_app. simpl.
      rewrite <- !trimStart_trimEnd, trimEnd_snoc_space; [done|].
      by rewrite is_space_lower. }
  split_and!.
  - apply normalizeUsername_idemp.
  - intros [s|]; [|done]. rewrite (normalizeComment_Some s).
    destruct (normalizeUsername s) as [|a r] eqn:E; [done|].
    simpl str_or. rewrite normalizeComment_Some.
    rewrite <- E, normalizeUsername_idemp. by rewrite E.
  - exact Hpad.
  - intros c s Hc. destruct (Hpad c s Hc) as [H1 H2].
    by rewrite !normalizeComment_Some, H1, H2.
Qed.

Lemma normalization_stable_witness :
  normalizeUsername (String " " "Alice") = normalizeUsername "Alice" ∧
  normalizeUsername ("Alice" ++ String " " "")%string = normalizeUsername "Alice".
Proof.
  destruct normalization_stable as (_ & _ & H & _).
  apply (H " "%char "Alice"). reflexivity.
Defined.

(** ** Upstream events and the pool *)

Lemma handle_refreshing (c : Conn) (ev : RawEvent) (now rnd : Z) (s : State) :
  refreshes ev = true →
  connections (handle c ev now rnd s)
    = connections (updateActivity (conn_username c) now s).
Proof.
  destruct ev as [d|d|d|d|r| |m]; unfold handle; simpl; try done.
  - intros _. unfold on_chat, perform. by repeat case_match.
  - unfold on_social. destruct (displayType d) as [t|]; [|done].
    by intros ->.
Qed.

Lemma handle_not_refreshing (c : Conn) (ev : RawEvent) (now rnd : Z) (s : State) :
  refreshes ev = false → ev ≠ disconnected →
  connections (handle c ev now rnd s) = connections s.
Proof.
  destruct ev as [d|d|d|d|r| |m]; unfold handle; simpl; try done.
  unfold on_social. destruct (displayType d) as [t|]; [|done].
  by intros ->.
Qed.

Lemma updateActivity_present (u : string) (now : Z) (s : State) (e : Entry) :
  connections s !! u = Some e →
  connections (updateActivity u now s) !! u
    = Some {| connection := connection e; lastActivity := now |}.
Proof.
  intros E. unfold updateActivity. rewrite E. simpl.
  by rewrite lookup_alter_eq, E.
Qed.

Lemma not_inactive_recent (now now' : Z) (s : State) (u : string) (c : Conn) :
  now' - now ≤ 5 * 60 * 1000 →
  isInactive now' s u {| connection := c; lastActivity := now |} = false.
Proof.
  intros H. destruct (isInactive now' s u _) eqn:I; [|done].
  apply isInactive_spec in I. simpl in I. lia.
Qed.

(** X3. A chat, like, gift or share event of a streamer's connection
    sets the [lastActivity] of the streamer's entry to the time of the
    event, and so does a [connect] that reuses the entry; a sweep that
    runs no more than 5 minutes after that time keeps the entry, also
    when the room has no client. *)
Theorem recent_activity_prevents_eviction
    (s : State) (c : Conn) (ev : RawEvent) (now rnd now' : Z) (ok : bool)
    (outcome : Conn → Completion) (e : Entry) :
  connections s !! conn_username c = Some e →
  refreshes ev = true →
  now' - now ≤ 5 * 60 * 1000 →
  let u := conn_username c in
  let touched := {| connection := connection e; lastActivity := now |} in
  let s1 := handle c ev now rnd s in
  let s1' := (connect u now ok s).1 in
  connections s1 !! u = Some touched ∧
  connections (checkInactiveConnections now' outcome s1) !! u = Some touched ∧
  connections s1' !! u = Some touched ∧
  connections (checkInactiveConnections now' outcome s1') !! u = Some touched.
Proof.
  intros E Hev Hrecent u touched s1 s1'.
  assert (connections s1 !! u = Some touched) as E1.
  { subst s1. rewrite (handle_refreshing _ _ _ _ _ Hev).
    by apply updateActivity_present. }
  assert (connections s1' !! u = Some touched) as E1'.
  { subst s1'. unfold connect. rewrite (connect_start_present _ _ _ _ E).
    simpl. by rewrite lookup_alter_eq, E. }
  split_and!.
  - exact E1.
  - destruct (checkInactiveConnections_spec now' outcome s1) as (_ & _ & H).
    rewrite (H u touched E1). unfold touched.
    by rewrite not_inactive_recent.
  - exact E1'.
  - destruct (checkInactiveConnections_spec now' outcome s1') as (_ & _ & H).
    rewrite (H u touched E1'). unfold touched.
    by rewrite not_inactive_recent.
Qed.

Lemma recent_activity_prevents_eviction_witness :
  let s := (connect "alice" 0 true init).1 in
  let c := MkConn 0 "alice" in
  let s1 := handle c (like (MkLikeData (MkUser JNull JNull JNull)
                                       (JNum 3) (JNum 9))) 400000 0 s in
  connections (checkInactiveConnections 700000 (λ _, Returns) s1) !! "alice"
    = Some {| connection := c; lastActivity := 400000 |}.
Proof.
  intros s c s1.
  refine (proj1 (proj2 (recent_activity_prevents_eviction s c _ 400000 0 700000
            true (λ _, Returns) {| connection := c; lastActivity := 0 |}
            _ _ _))).
  - reflexivity.
  - reflexivity.
  - lia.
Defined.

(** X4. An upstream [error] or [connected] event, and a [social]
    event that is not a share, leave the pool and the room counters
    exactly as they were: [error] emits one [tiktok_error],
    [connected] one [tiktok_connected], the [social] event nothing.
    They do not count as activity: an entry whose room has no client
    and whose last activity is more than 5 minutes old is still
    removed by the next sweep. *)
Theorem upstream_error_is_not_fatal
    (c : Conn) (ev : RawEvent) (now rnd : Z) (s : State) :
  refreshes ev = false →
  ev ≠ disconnected →
  let u := conn_username c in
  let s' := handle c ev now rnd s in
  connections s' = connections s ∧
  roomClients s' = roomClients s ∧
  (∀ message, ev = error message →
     effects_since s s' = [Emit u (tiktok_error message now)]) ∧
  (∀ roomId, ev = connected roomId →
     effects_since s s' = [Emit u (tiktok_connected roomId now)]) ∧
  (∀ data, ev = social data → effects_since s s' = []) ∧
  (∀ e now' outcome,
     connections s !! u = Some e →
     getClientCount u s = 0 →
     now' - lastActivity e > 5 * 60 * 1000 →
     connections (checkInactiveConnections now' outcome s') !! u = None).
Proof.
  intros Hev Hnd u s'.
  pose proof (handle_not_refreshing c ev now rnd s Hev Hnd) as Hc.
  destruct (handle_frame c ev now rnd s) as (Hr & _).
  fold s' in Hc, Hr.
  split_and!.
  - exact Hc.
  - exact Hr.
  - intros m ->. by apply effects_since_app.
  - intros r ->. by apply effects_since_app.
  - intros d ->. apply effects_since_app. subst s'. unfold handle, on_social.
    simpl in Hev. destruct (displayType d) as [t|].
    + rewrite Hev. by rewrite app_nil_r.
    + by rewrite app_nil_r.
  - intros e now' outcome E Hcount Hidle.
    destruct (checkInactiveConnections_spec now' outcome s') as (_ & _ & H).
    rewrite (H u e) by (by rewrite Hc).
    assert (isInactive now' s' u e = true) as ->; [|done].
    rewrite (isInactive_frame now' s s' u e Hr).
    by apply isInactive_spec.
Qed.

Lemma upstream_error_is_not_fatal_witness :
  let s := (connect "alice" 0 true init).1 in
  let s' := handle (MkConn 0 "alice") (error (JStr "rate limit")) 9 0 s in
  connections s' = connections s ∧
  effects_since s s' = [Emit "alice" (tiktok_error (JStr "rate limit") 9)].
Proof.
  intros s s'.
  pose proof (upstream_error_is_not_fatal (MkConn 0 "alice")
                (error (JStr "rate limit")) 9 0 s eq_refl) as H.
  destruct H as (H1 & _ & H2 & _); [discriminate|].
  split; [exact H1 | by apply H2].
Defined.

(** X5. An upstream [disconnected] event of a connection made for
    [u] emits one [tiktok_disconnected] to room [u] and removes the
    entry of [u], whichever connection that entry holds, without any
    upstream teardown; the other entries stay.  The next
    [connect(u)] then creates a new connection object and starts a
    new handshake on it. *)
Theorem upstream_disconnected_removes_entry
    (c : Conn) (now rnd : Z) (s : State) (k : nat) (now2 : Z) :
  let u := conn_username c in
  let s' := handle c disconnected now rnd s in
  let fresh := MkConn (nextConn s) u in
  let s2 := step (Connect k u now2) s' in
  effects_since s s' = [Emit u (tiktok_disconnected now)] ∧
  connections s' !! u = None ∧
  (∀ v, v ≠ u → connections s' !! v = connections s !! v) ∧
  effects_since s' s2 = [Handshake fresh] ∧
  connections s2 !! u = Some {| connection := fresh; lastActivity := now2 |} ∧
  (k, fresh) ∈ awaiting s2.
Proof.
  intros u s' fresh s2.
  assert (connections s' !! u = None) as E by apply lookup_delete_eq.
  destruct (connect_absent_facts k u now2 s' E) as (Ht & Hc & Ha & _).
  fold s2 in Ht, Hc, Ha.
  split_and!.
  - by apply effects_since_app.
  - exact E.
  - intros v Hv. subst s'. simpl. by rewrite lookup_delete_ne.
  - by apply effects_since_app.
  - rewrite Hc. apply lookup_insert_eq.
  - rewrite Ha. apply elem_of_app. right. by apply list_elem_of_singleton.
Qed.

(** X6. Only [connect] puts a name into the pool: when a task of the
    event loop leaves an entry under a name that had none, the task
    is a [connect] call for that name.  In particular no upstream
    event, also of a connection that is no longer in the pool, brings
    an entry back. *)
Theorem only_connect_adds_entries (t : Task) (s : State) (u : string) :
  connections s !! u = None →
  is_Some (connections (step t s) !! u) →
  ∃ k now, t = Connect k u now.
Proof.
  intros E [e' E'].
  destruct (step_pool t s) as [_ Hp].
  destruct (Hp u e' E') as [(e & E0 & _)|[_ Hlt]]; [congruence|].
  destruct t as [k v now|c ok|v o|c ev now rnd|v|v|now o].
  - destruct (decide (v = u)) as [->|Hne]; [by eexists _, _|].
    exfalso. revert E'. simpl.
    destruct (connections s !! v) as [e|] eqn:Ev.
    + rewrite (connect_start_present _ _ _ _ Ev). simpl.
      by rewrite lookup_alter_ne, E.
    + rewrite (connect_start_absent _ _ _ Ev). simpl.
      by rewrite lookup_insert_ne, E.
  - exfalso. revert Hlt. simpl.
    destruct (take_awaiting c (awaiting s)) as [[k rest]|]; [|lia].
    destruct ok; simpl; lia.
  - exfalso. destruct (disconnect_frame v o s) as (_ & Hn & _).
    simpl in Hlt. lia.
  - exfalso. destruct (handle_frame c ev now rnd s) as (_ & Hn & _).
    simpl in Hlt. lia.
  - exfalso. simpl in Hlt. lia.
  - exfalso. revert Hlt. simpl. unfold removeClientFromRoom.
    case_match; simpl; lia.
  - exfalso.
    destruct (sweep_frame now o (map_to_list (connections s)) s)
      as (_ & Hn & _).
    simpl in Hlt. unfold checkInactiveConnections in Hlt. lia.
Qed.

Lemma only_connect_adds_entries_witness :
  ∃ k now, Connect 4 "alice" 2 = Connect k "alice" now.
Proof.
  apply (only_connect_adds_entries (Connect 4 "alice" 2) init "alice").
  - reflexivity.
  - eexists. reflexivity.
Defined.

(** ** The life of connection objects *)

Lemma handshake_conns_app (a b : list Effect) :
  handshake_conns (a ++ b) = handshake_conns a ++ handshake_conns b.
Proof. apply omap_app. Qed.

Lemma teardown_conns_app (a b : list Effect) :
  teardown_conns (a ++ b) = teardown_conns a ++ teardown_conns b.
Proof. apply omap_app. Qed.

Lemma emits_no_lifecycle (room : string) (es : list Effect) :
  Forall (emits_to room) es →
  handshake_conns es = [] ∧ teardown_conns es = [].
Proof. induction 1 as [|e es [ev ->] _ IH]; [done|]. exact IH. Qed.

Lemma quiet_step_inv (s s' : State) :
  quiet_step s s' → lifecycle_inv s → lifecycle_inv s'.
Proof.
  intros ((es & Ht & Hh & Htd) & Hn & Ha & Hp)
         (Hk & Hids & Hpool & Haw & Hnd & Hsub & Hdis).
  assert (handshake_conns (trace s') = handshake_conns (trace s)) as Hh'
    by (by rewrite Ht, handshake_conns_app, Hh, app_nil_r).
  assert (teardown_conns (trace s') = teardown_conns (trace s)) as Htd'
    by (by rewrite Ht, teardown_conns_app, Htd, app_nil_r).
  unfold lifecycle_inv. rewrite Hh', Htd', Hn. split_and!.
  - intros u e' E'. destruct (Hp u e' E') as (e & E & ->).
    rewrite Hn. by apply Hk.
  - exact Hids.
  - intros u e' E'. destruct (Hp u e' E') as (e & E & ->). by eapply Hpool.
  - intros k c Hin. by eapply Haw, Ha.
  - exact Hnd.
  - exact Hsub.
  - intros c u e' Hc E'. destruct (Hp u e' E') as (e & E & ->). by eapply Hdis.
Qed.

Lemma quiet_step_refl (s s' : State) :
  trace s' = trace s → nextConn s' = nextConn s → awaiting s' = awaiting s →
  connections s' = connections s → quiet_step s s'.
Proof.
  intros Ht Hn Ha Hc. unfold quiet_step. rewrite Ht, Hn, Ha, Hc. split_and!.
  - exists []. by rewrite app_nil_r.
  - done.
  - done.
  - intros u e E. by exists e.
Qed.

Lemma connect_absent_inv (k : nat) (u : string) (now : Z) (s : State) :
  connections s !! u = None →
  lifecycle_inv s → lifecycle_inv (step (Connect k u now) s).
Proof.
  intros E (Hk & Hids & Hpool & Haw & Hnd & Hsub & Hdis).
  destruct (connect_absent_facts k u now s E) as (Ht & Hc & Ha & Hn & _).
  set (c := MkConn (nextConn s) u) in *.
  set (s' := step (Connect k u now) s) in *.
  assert (handshake_conns (trace s') = handshake_conns (trace s) ++ [c]) as Hh'
    by (by rewrite Ht, handshake_conns_app).
  assert (teardown_conns (trace s') = teardown_conns (trace s)) as Htd'
    by (by rewrite Ht, teardown_conns_app, app_nil_r).
  assert (c ∉ teardown_conns (trace s)) as Hfresh.
  { intros Hin. apply Hsub in Hin.
    assert (conn_id c ∈ conn_id <$> handshake_conns (trace s)) as Hid
      by (apply list_elem_of_fmap; by exists c).
    rewrite Hids in Hid. apply elem_of_seq in Hid. simpl in Hid. lia. }
  unfold lifecycle_inv. rewrite Hh', Htd', Hn, Hc, Ha. split_and!.
  - by apply (step_pool_keys_ok (Connect k u now) s).
  - rewrite fmap_app, Hids, seq_S. done.
  - intros v e'. rewrite lookup_insert. case_decide.
    + intros [= <-]. apply elem_of_app. right. by apply list_elem_of_singleton.
    + intros E'. apply elem_of_app. left. by eapply Hpool.
  - intros k' c' Hin. apply elem_of_app in Hin as [Hin|Hin].
    + apply elem_of_app. left. by eapply Haw.
    + apply list_elem_of_singleton in Hin as [= -> ->].
      apply elem_of_app. right. by apply list_elem_of_singleton.
  - exact Hnd.
  - intros c' Hin. apply elem_of_app. left. by apply Hsub.
  - intros c' v e' Hin. rewrite lookup_insert. case_decide.
    + intros [= <-]. simpl. by intros ->.
    + by apply Hdis.
Qed.

Lemma disconnect_present_inv (u : string) (o : Conn → Completion) (s : State)
    (e : Entry) :
  connections s !! u = Some e →
  lifecycle_inv s → lifecycle_inv (step (Disconnect u o) s).
Proof.
  intros E (Hk & Hids & Hpool & Haw & Hnd & Hsub & Hdis).
  destruct (disconnect_present_facts u o s e E) as (Ht & Hc & Ha & Hn & _).
  set (s' := step (Disconnect u o) s) in *.
  assert (handshake_conns (trace s') = handshake_conns (trace s)) as Hh'
    by (by rewrite Ht, handshake_conns_app, app_nil_r).
  assert (teardown_conns (trace s')
          = teardown_conns (trace s) ++ [connection e]) as Htd'
    by (by rewrite Ht, teardown_conns_app).
  unfold lifecycle_inv. rewrite Hh', Htd', Hn, Hc, Ha. split_and!.
  - by apply (step_pool_keys_ok (Disconnect u o) s).
  - exact Hids.
  - intros v e'. rewrite lookup_delete. case_decide; [done|]. apply Hpool.
  - exact Haw.
  - apply NoDup_app. split_and!; [done| |apply NoDup_singleton].
    intros c Hin Hc'. apply list_elem_of_singleton in Hc' as ->.
    by apply (Hdis _ u e Hin E).
  - intros c Hin. apply elem_of_app in Hin as [Hin|Hin]; [by apply Hsub|].
    apply list_elem_of_singleton in Hin as ->. by eapply Hpool.
  - intros c v e'. rewrite lookup_delete. case_decide; [done|].
    intros Hin E'. apply elem_of_app in Hin as [Hin|Hin]; [by eapply Hdis|].
    apply list_elem_of_singleton in Hin as ->.
    intros Heq. destruct (Hk v e' E') as [Hv _]. destruct (Hk u e E) as [Hu _].
    congruence.
Qed.

Lemma disconnect_inv (u : string) (o : Conn → Completion) (s : State) :
  lifecycle_inv s → lifecycle_inv (step (Disconnect u o) s).
Proof.
  destruct (connections s !! u) as [e|] eqn:E.
  - by apply (disconnect_present_inv u o s e).
  - simpl. by rewrite (disconnect_absent _ _ _ E).
Qed.

(** The sweep is a sequence of [disconnect] calls. *)
Lemma sweep_as_run (now : Z) (o : Conn → Completion)
    (l : list (string * Entry)) (s : State) :
  ∃ ts, foldl (sweepEntry now o) s l = run ts s ∧
        Forall (λ t, ∃ u, t = Disconnect u o) ts.
Proof.
  revert s. induction l as [|kv l IH]; intros s; simpl.
  - by exists [].
  - unfold sweepEntry at 2. destruct (isInactive now s kv.1 kv.2).
    + destruct (IH (disconnect kv.1 o s).1) as (ts & -> & Hts).
      exists (Disconnect kv.1 o :: ts). split; [done|].
      constructor; [by eexists|done].
    + apply IH.
Qed.

Lemma step_lifecycle_inv (t : Task) (s : State) :
  lifecycle_inv s → lifecycle_inv (step t s).
Proof.
  intros Hinv.
  destruct t as [k u now|c ok|u o|c ev now rnd|u|u|now o].
  - destruct (connections s !! u) as [e|] eqn:E;
      [|by apply connect_absent_inv].
    destruct (connect_present_facts k u now s e E) as (Ht & Hc & Ha & Hn & _).
    apply (quiet_step_inv s); [|done]. split_and!.
    + by eexists.
    + done.
    + by rewrite Ha.
    + rewrite Hc. intros v e'. apply lookup_alter_touch.
  - destruct (take_awaiting c (awaiting s)) as [[k rest]|] eqn:T.
    + destruct (settle_facts c ok s k rest T) as (Ht & Hc & Ha & Hn & _).
      apply (quiet_step_inv s); [|done]. split_and!.
      * by eexists.
      * done.
      * rewrite Ha. intros p. by apply take_awaiting_subset with c k.
      * rewrite Hc. destruct ok; [intros v e' E'; by exists e'|].
        intros v e'. apply lookup_delete_some.
    + simpl. by rewrite T.
  - by apply disconnect_inv.
  - destruct (handle_trace c ev now rnd s) as (es & Ht & Hes).
    destruct (emits_no_lifecycle _ _ Hes) as [Hh Htd].
    destruct (handle_frame c ev now rnd s) as (_ & Hn & Ha).
    destruct (handle_pool c ev now rnd s) as [_ Hp].
    apply (quiet_step_inv s); [|done]. split_and!.
    + by exists es.
    + done.
    + simpl. by rewrite Ha.
    + intros v e' E'. destruct (Hp v e' E') as [H|[_ Hlt]]; [done|].
      simpl in Hlt. lia.
  - by apply (quiet_step_inv s); [apply quiet_step_refl|].
  - apply (quiet_step_inv s); [|done]. simpl. unfold removeClientFromRoom.
    case_match; by apply quiet_step_refl.
  - simpl. unfold checkInactiveConnections.
    destruct (sweep_as_run now o (map_to_list (connections s)) s)
      as (ts & -> & Hts).
    clear -Hts Hinv. revert s Hinv.
    induction Hts as [|t ts [u ->] _ IH]; intros s Hinv; [done|].
    change (run (Disconnect u o :: ts) s)
      with (run ts (step (Disconnect u o) s)).
    by apply IH, disconnect_inv.
Qed.

Lemma run_lifecycle_inv (ts : list Task) : lifecycle_inv (run ts init).
Proof.
  apply run_invariant; [|apply step_lifecycle_inv].
  unfold lifecycle_inv, pool_keys_ok; simpl. split_and!.
  - intros u e. by rewrite lookup_empty.
  - done.
  - intros u e. by rewrite lookup_empty.
  - intros k c H. by apply elem_of_nil in H.
  - apply NoDup_nil_2.
  - intros c H. by apply elem_of_nil in H.
  - intros c u e H. by apply elem_of_nil in H.
Qed.

(** X7. In every state of a run, each connection object created so
    far has had exactly one handshake started on it, and handshakes
    were started on nothing else: the connections of the [Handshake]
    effects are the objects number 0, 1, ... in order of creation.
    Every connection held by the pool, and every connection a
    suspended [connect] waits for, is among them. *)
Theorem one_handshake_per_connection_object (ts : list Task) :
  let s := run ts init in
  conn_id <$> handshake_conns (trace s) = seq 0 (nextConn s) ∧
  NoDup (handshake_conns (trace s)) ∧
  List.length (handshake_conns (trace s)) = nextConn s ∧
  (∀ u e, connections s !! u = Some e →
          connection e ∈ handshake_conns (trace s)) ∧
  (∀ k c, (k, c) ∈ awaiting s → c ∈ handshake_conns (trace s)).
Proof.
  intros s.
  destruct (run_lifecycle_inv ts) as (_ & Hids & Hpool & Haw & _).
  fold s in Hids, Hpool, Haw. split_and!.
  - exact Hids.
  - apply (NoDup_fmap_1 conn_id). rewrite Hids. apply NoDup_seq.
  - rewrite <- (length_fmap conn_id), Hids. apply length_seq.
  - exact Hpool.
  - exact Haw.
Qed.

(** X8. In every state of a run, no connection has been torn down
    twice, every connection that was torn down had its handshake
    started before, and no connection that was torn down is in the
    pool. *)
Theorem no_connection_torn_down_twice (ts : list Task) :
  let s := run ts init in
  NoDup (teardown_conns (trace s)) ∧
  (∀ c, c ∈ teardown_conns (trace s) → c ∈ handshake_conns (trace s)) ∧
  (∀ c u e, c ∈ teardown_conns (trace s) →
            connections s !! u = Some e → connection e ≠ c) ∧
  (List.length (teardown_conns (trace s)) ≤ nextConn s)%nat.
Proof.
  intros s.
  destruct (run_lifecycle_inv ts) as (_ & Hids & _ & _ & Hnd & Hsub & Hdis).
  fold s in Hids, Hnd, Hsub, Hdis. split_and!.
  - exact Hnd.
  - exact Hsub.
  - exact Hdis.
  - assert (List.length (handshake_conns (trace s)) = nextConn s) as <-.
    { rewrite <- (length_fmap conn_id), Hids. apply length_seq. }
    apply submseteq_length, NoDup_submseteq; [done|].
    intros c. apply Hsub.
Qed.

(** ** Sweeping twice, counting, and shutting down *)

Lemma State_eq (s s' : State) :
  connections s' = connections s → roomClients s' = roomClients s →
  nextConn s' = nextConn s → awaiting s' = awaiting s → trace s' = trace s →
  s' = s.
Proof. destruct s, s'; simpl. by intros -> -> -> -> ->. Qed.

Lemma filter_none {A} (f : A → bool) (l : list A) :
  (∀ x, x ∈ l → f x = false) → List.filter f l = [].
Proof.
  induction l as [|x l IH]; intros H; simpl; [done|].
  rewrite (H x) by (by left). apply IH. intros y Hy. apply H. by right.
Qed.

(** X9. A sweep leaves nothing for a second sweep at the same time:
    running [checkInactiveConnections] again changes nothing and
    tears nothing down. *)
Theorem sweep_is_idempotent
    (now : Z) (outcome outcome' : Conn → Completion) (s : State) :
  let s1 := checkInactiveConnections now outcome s in
  checkInactiveConnections now outcome' s1 = s1 ∧
  effects_since s1 (checkInactiveConnections now outcome' s1) = [].
Proof.
  intros s1.
  destruct (checkInactiveConnections_spec now outcome s) as (_ & Hnone & Hsome).
  fold s1 in Hnone, Hsome.
  destruct (checkInactiveConnections_spec now outcome' s1)
    as (Ht2 & Hnone2 & Hsome2).
  assert (roomClients s1 = roomClients s) as Hrc by apply sweep_frame.
  assert (∀ u e, connections s1 !! u = Some e → isInactive now s1 u e = false)
    as Hkept.
  { intros u e E. rewrite (isInactive_frame now s s1 u e Hrc).
    destruct (connections s !! u) as [e0|] eqn:E0.
    - rewrite (Hsome u e0 E0) in E.
      destruct (isInactive now s u e0) eqn:I; [done|]. by injection E as <-.
    - by rewrite (Hnone u E0) in E. }
  rewrite filter_none in Ht2; last first.
  { intros [u e] Hin. apply elem_of_map_to_list in Hin. by apply Hkept. }
  simpl in Ht2. rewrite app_nil_r in Ht2.
  assert (checkInactiveConnections now outcome' s1 = s1) as Heq.
  { apply State_eq; [|apply sweep_frame..|exact Ht2].
    apply map_eq. intros u. destruct (connections s1 !! u) as [e|] eqn:E.
    - by rewrite (Hsome2 u e E), (Hkept u e E).
    - by apply Hnone2. }
  split; [exact Heq|]. rewrite Heq. apply effects_since_app.
  by rewrite app_nil_r.
Qed.

Lemma count_after_snoc (u : string) (ts : list Task) (t : Task) :
  count_after u (ts ++ [t]) = count_step u (count_after u ts) t.
Proof. unfold count_after. by rewrite foldl_app. Qed.

(** X10. The client count of a room after a run is the replay of the
    [addClientToRoom] and [removeClientFromRoom] calls made for that
    room, as a counter that goes up by one, and down by one unless it
    is 0: calls for other rooms and all other tasks ([connect],
    [disconnect], upstream events, sweeps) never change it. *)
Theorem client_count_replays_own_calls (ts : list Task) (username : string) :
  getClientCount username (run ts init) = count_after username ts.
Proof.
  induction ts as [|t ts IH] using rev_ind; [done|].
  rewrite run_snoc, count_after_snoc, <- IH.
  pose proof (getClientCount_nonneg username _ (run_counts_nonneg ts)) as H0.
  set (s := run ts init) in *.
  destruct t as [k u now|c ok|u o|c ev now rnd|u|u|now o];
    try (simpl count_step; apply getClientCount_frame;
         by apply step_roomClients).
  - simpl. destruct (decide (u = username)) as [->|Hne].
    + unfold addClientToRoom. unfold getClientCount at 1; simpl.
      rewrite lookup_insert_eq. case_match; lia.
    + unfold addClientToRoom. unfold getClientCount at 1; simpl.
      by rewrite lookup_insert_ne.
  - simpl. unfold removeClientFromRoom.
    destruct (decide (u = username)) as [->|Hne].
    + destruct (getClientCount username s >? 0) eqn:G; [|done].
      unfold getClientCount at 1; simpl.
      rewrite lookup_insert_eq. case_match; lia.
    + destruct (getClientCount u s >? 0); [|done].
      unfold getClientCount at 1; simpl. by rewrite lookup_insert_ne.
Qed.

Lemma disconnect_all_spec (o : Conn → Completion)
    (l : list (string * Entry)) (s : State) :
  NoDup l.*1 →
  (∀ u e, (u, e) ∈ l → connections s !! u = Some e) →
  let s' := foldl (λ s username, (disconnect username o s).1) s l.*1 in
  trace s' = trace s ++ ((λ kv, Teardown (connection kv.2)) <$> l) ∧
  (∀ u, u ∉ l.*1 → connections s' !! u = connections s !! u) ∧
  (∀ u, u ∈ l.*1 → connections s' !! u = None) ∧
  roomClients s' = roomClients s ∧ nextConn s' = nextConn s ∧
  awaiting s' = awaiting s.
Proof.
  revert s. induction l as [|[u e] l IH]; intros s Hnd Hin.
  - simpl. split_and!; try done.
    + by rewrite app_nil_r.
    + intros u H. by apply elem_of_nil in H.
  - rewrite !fmap_cons in *. cbn [foldl fst].
    apply NoDup_cons in Hnd as [Hu Hnd].
    assert (connections s !! u = Some e) as E by (apply Hin; by left).
    rewrite (disconnect_present _ _ _ _ E). cbn [fst].
    set (s1 := with_connections (delete u) (perform (Teardown (connection e)) s)).
    destruct (IH s1 Hnd) as (Ht & Hout & Hgone & Hr & Hn & Ha).
    { intros v e' Hv. simpl. rewrite lookup_delete_ne; [apply Hin; by right|].
      intros ->. apply Hu. apply list_elem_of_fmap. by exists (v, e'). }
    split_and!.
    + rewrite Ht. simpl. by rewrite <- app_assoc.
    + intros v Hv. apply not_elem_of_cons in Hv as [Hvu Hv].
      rewrite (Hout v Hv). simpl. by rewrite lookup_delete_ne.
    + intros v Hv. apply elem_of_cons in Hv as [->|Hv]; [|by apply Hgone].
      rewrite (Hout u Hu). simpl. apply lookup_delete_eq.
    + by rewrite Hr.
    + by rewrite Hn.
    + by rewrite Ha.
Qed.

(** X11. [getStats] lists each streamer of the pool once and counts
    them.  The shutdown loop of the server, which disconnects every
    streamer that [getStats] lists, tears down the connection of
    every entry of the pool once and leaves the pool empty, so that
    [getStats] then reports no connection; it does not touch the room
    counters or the [connect] calls that are still suspended. *)
Theorem shutdown_disconnects_everything
    (outcome : Conn → Completion) (s : State) :
  let s' := shutdown outcome s in
  activeConnections (getStats s) = List.length (stats_connections (getStats s)) ∧
  NoDup (stats_connections (getStats s)) ∧
  (∀ u, u ∈ stats_connections (getStats s) ↔ is_Some (connections s !! u)) ∧
  connections s' = ∅ ∧
  activeConnections (getStats s') = 0%nat ∧
  stats_connections (getStats s') = [] ∧
  effects_since s s' =
    (λ kv, Teardown (connection kv.2)) <$> map_to_list (connections s) ∧
  List.length (effects_since s s') = activeConnections (getStats s) ∧
  roomClients s' = roomClients s ∧
  awaiting s' = awaiting s.
Proof.
  intros s'.
  destruct (disconnect_all_spec outcome (map_to_list (connections s)) s)
    as (Ht & Hout & Hgone & Hr & Hn & Ha).
  { apply NoDup_fst_map_to_list. }
  { intros u e. apply elem_of_map_to_list. }
  change (foldl _ s _) with s' in Ht, Hout, Hgone, Hr, Hn, Ha.
  assert (∀ u, u ∈ (map_to_list (connections s)).*1 ↔
               is_Some (connections s !! u)) as Hkeys.
  { intros u. rewrite list_elem_of_fmap. split.
    - intros ([u' e] & -> & Hin). apply elem_of_map_to_list in Hin. by eexists.
    - intros [e E]. exists (u, e). split; [done|].
      by apply elem_of_map_to_list. }
  assert (connections s' = ∅) as Hempty.
  { apply map_eq. intros u. rewrite lookup_empty.
    destruct (connections s !! u) as [e|] eqn:E.
    - apply Hgone. apply Hkeys. by eexists.
    - rewrite Hout; [done|]. intros Hin. apply Hkeys in Hin as [e E'].
      congruence. }
  assert (effects_since s s' =
            (λ kv, Teardown (connection kv.2)) <$> map_to_list (connections s))
    as Heff by (by apply effects_since_app).
  split_and!.
  - simpl. by rewrite length_fmap, length_map_to_list.
  - apply NoDup_fst_map_to_list.
  - exact Hkeys.
  - exact Hempty.
  - simpl. rewrite Hempty. apply map_size_empty.
  - simpl. rewrite Hempty. by rewrite map_to_list_empty.
  - exact Heff.
  - rewrite Heff. simpl. by rewrite length_fmap, length_map_to_list.
  - exact Hr.
  - exact Ha.
Qed.

(** ** The server: rooms and sockets *)

Lemma members_join (k : nat) (r room : string) (m : gmap string (gset nat)) :
  members (join k r m) room =
    if decide (r = room) then {[k]} ∪ members m room else members m room.
Proof.
  unfold members at 1, join. rewrite lookup_insert.
  by destruct (decide (r = room)) as [->|].
Qed.

Lemma members_leave (k : nat) (r room : string) (m : gmap string (gset nat)) :
  members (leave k r m) room =
    if decide (r = room) then members m room ∖ {[k]} else members m room.
Proof.
  unfold members at 1, leave. rewrite lookup_insert.
  by destruct (decide (r = room)) as [->|].
Qed.

Lemma members_drop_socket (k : nat) (room : string) (m : gmap string (gset nat)) :
  members ((λ sockets, sockets ∖ {[k]}) <$> m) room = members m room ∖ {[k]}.
Proof.
  unfold members. rewrite lookup_fmap.
  destruct (m !! room); simpl; [done|]. by rewrite empty_difference_L.
Qed.

Lemma valid_username_Some (payload : JsVal) (name : string) :
  valid_username payload = Some name ↔ payload = JStr name ∧ name ≠ "".
Proof.
  destruct payload as [| |b|n|s]; simpl; try (split; [done|by intros [? _]]).
  destruct (String.eqb_spec s ""); simpl.
  - split; [done|]. intros [[= ->] H]. done.
  - split; [by intros [= ->]|by intros [[= ->] _]].
Qed.

Lemma on_join_room_valid (socket : nat) (name : string) (now : Z) (ss : Server) :
  name ≠ "" →
  let u := normalizeUsername name in
  let s := addClientToRoom u (service ss) in
  let ss' := on_join_room socket (JStr name) now ss in
  service ss' = step (Connect socket u now) s ∧
  adapter ss' = join socket u (adapter ss) ∧
  socketUsername ss' = <[socket := u]> (socketUsername ss) ∧
  outbox ss' = outbox ss ++
    match connections (service ss) !! u with
    | Some _ => [(socket, room_joined u)]
    | None => []
    end.
Proof.
  intros Hne u s ss'. subst ss'. unfold on_join_room.
  assert (valid_username (JStr name) = Some name) as ->
    by (by apply valid_username_Some).
  fold u. simpl service. fold s.
  assert (connections s = connections (service ss)) as Hc by done.
  destruct (connections (service ss) !! u) as [e|] eqn:E.
  - rewrite <- Hc in E. simpl step.
    rewrite (connect_start_present _ _ _ _ E). done.
  - rewrite <- Hc in E. simpl step.
    rewrite (connect_start_absent _ _ _ E). simpl.
    by rewrite app_nil_r.
Qed.

Lemma on_join_room_invalid (socket : nat) (payload : JsVal) (now : Z)
    (ss : Server) :
  valid_username payload = None →
  on_join_room socket payload now ss = send socket invalid_username ss.
Proof. intros H. unfold on_join_room. by rewrite H. Qed.

(** What a task of the server does to the rooms. *)
Lemma server_step_members (t : ServerTask) (ss ss' : Server)
    (socket : nat) (room : string) :
  server_step t ss = Some ss' →
  socket ∈ members (adapter ss') room →
  socket ∈ members (adapter ss) room ∨ asks_for socket room t.
Proof.
  destruct t as [k id|k payload now|k payload|k|k now|c ok|c ev now rnd|now o];
    simpl; intros Hstep Hin; simplify_eq.
  - simpl in Hin. rewrite members_join in Hin. case_decide; [|by left].
    apply elem_of_union in Hin as [Hin|Hin]; [|by left].
    apply elem_of_singleton in Hin. right. by subst.
  - destruct (valid_username payload) as [name|] eqn:V.
    + apply valid_username_Some in V as [-> Hne].
      destruct (on_join_room_valid k name now ss Hne) as (_ & Ha & _).
      rewrite Ha, members_join in Hin. case_decide; [|by left].
      apply elem_of_union in Hin as [Hin|Hin]; [|by left].
      apply elem_of_singleton in Hin. right. split; [done|].
      by exists name.
    + rewrite (on_join_room_invalid _ _ _ _ V) in Hin. by left.
  - left. unfold on_leave_room in Hstep.
    destruct (js_truthy payload); [|by simplify_eq].
    destruct payload; simplify_eq. simpl in Hin.
    rewrite members_leave in Hin. case_decide; [|done].
    by apply elem_of_difference in Hin as [Hin _].
  - left. unfold on_disconnect in Hin.
    assert (socket ∈ members ((λ sockets, sockets ∖ {[k]}) <$> adapter ss) room)
      as Hin'.
    { revert Hin. simpl. by repeat case_match. }
    rewrite members_drop_socket in Hin'.
    by apply elem_of_difference in Hin' as [Hin' _].
  - by left.
  - left. unfold on_settle in Hin. by repeat case_match.
  - by left.
  - by left.
Qed.

Lemma server_run_members (ts : list ServerTask) (ss ss' : Server)
    (socket : nat) (room : string) :
  server_run ts ss = Some ss' →
  socket ∈ members (adapter ss') room →
  socket ∈ members (adapter ss) room ∨ Exists (asks_for socket room) ts.
Proof.
  revert ss. induction ts as [|t ts IH]; intros ss; simpl.
  - intros [= ->] Hin. by left.
  - destruct (server_step t ss) as [ss1|] eqn:Hstep; [|done].
    intros Hrun Hin. destruct (IH ss1 Hrun Hin) as [H|H].
    + destruct (server_step_members t ss ss1 socket room Hstep H) as [H'|H'].
      * by left.
      * right. by left.
    + right. by right.
Qed.

(** X12. In the server, a socket is in a room only if it asked for
    it: whenever, after any run of the server, a socket is a member of
    a room, the run contains either the connection of that socket with
    the room's name as its id, or a [join-room] sent by that socket
    with a valid name that normalises to the room's name.  So an
    event of an upstream connection made for streamer [A] is
    delivered only to sockets that asked for [A]. *)
Theorem sockets_receive_only_what_they_joined
    (ts : list ServerTask) (ss : Server) (socket : nat) :
  server_run ts server_init = Some ss →
  (∀ room, socket ∈ members (adapter ss) room →
           Exists (asks_for socket room) ts) ∧
  (∀ c ev now rnd,
     socket ∈ delivered (adapter ss)
                (effects_since (service ss)
                   (handle c ev now rnd (service ss))) →
     Exists (asks_for socket (conn_username c)) ts).
Proof.
  intros Hrun.
  assert (∀ room, socket ∈ members (adapter ss) room →
                  Exists (asks_for socket room) ts) as Hmem.
  { intros room Hin.
    destruct (server_run_members ts server_init ss socket room Hrun Hin)
      as [H|H]; [|done].
    unfold members in H. simpl in H. rewrite lookup_empty in H.
    by apply elem_of_empty in H. }
  split; [exact Hmem|].
  intros c ev now rnd Hin. apply Hmem.
  destruct (handle_trace c ev now rnd (service ss)) as (es & Htr & Hes).
  rewrite (effects_since_app _ _ _ Htr) in Hin.
  by apply (delivered_emits_to (adapter ss) (conn_username c) es Hes).
Qed.

Lemma sockets_receive_only_what_they_joined_witness :
  Exists (asks_for 7 "alice")
    [SocketConnects 7 "x7"; JoinRoom 7 (JStr " Alice") 0].
Proof.
  refine (proj1 (sockets_receive_only_what_they_joined
                   [SocketConnects 7 "x7"; JoinRoom 7 (JStr " Alice") 0]
                   _ 7 eq_refl) "alice" _).
  destruct (on_join_room_valid 7 " Alice" 0 (on_connection 7 "x7" server_init))
    as (_ & Ha & _); [discriminate|].
  rewrite Ha. change (normalizeUsername " Alice") with "alice".
  rewrite members_join, decide_True by reflexivity.
  apply elem_of_union_l, elem_of_singleton. reflexivity.
Defined.

Lemma server_step_service (t : ServerTask) (ss ss' : Server) :
  server_step t ss = Some ss' → ∃ l, service ss' = run l (service ss).
Proof.
  destruct t as [k id|k payload now|k payload|k|k now|c ok|c ev now rnd|now o];
    simpl; intros Hstep; simplify_eq.
  - by exists [].
  - destruct (valid_username payload) as [name|] eqn:V.
    + apply valid_username_Some in V as [-> Hne].
      destruct (on_join_room_valid k name now ss Hne) as (-> & _).
      by exists [AddClient (normalizeUsername name);
                 Connect k (normalizeUsername name) now].
    + rewrite (on_join_room_invalid _ _ _ _ V). by exists [].
  - unfold on_leave_room in Hstep.
    destruct (js_truthy payload); [|simplify_eq; by exists []].
    destruct payload as [| |b|n|name]; simplify_eq.
    by exists [RemoveClient (normalizeUsername name)].
  - unfold on_disconnect. simpl.
    destruct (socketUsername ss !! k) as [u|]; [|by exists []].
    destruct (negb (u =? "")%string); [|by exists []].
    by exists [RemoveClient u].
  - by exists [].
  - unfold on_settle.
    destruct (take_awaiting c (awaiting (service ss))) as [[k r]|];
      [|by exists []].
    by exists [Settle c ok].
  - by exists [Upstream c ev now rnd].
  - by exists [Tick now o].
Qed.

(** The service of a running server is in a state that a run of the
    service's own event loop reaches. *)
Lemma server_run_service (ts : list ServerTask) (ss ss' : Server) :
  server_run ts ss = Some ss' → ∃ l, service ss' = run l (service ss).
Proof.
  revert ss. induction ts as [|t ts IH]; intros ss; simpl.
  - intros [= ->]. by exists [].
  - destruct (server_step t ss) as [ss1|] eqn:Hstep; [|done].
    intros Hrun. destruct (IH ss1 Hrun) as (l2 & ->).
    destruct (server_step_service t ss ss1 Hstep) as (l1 & ->).
    exists (l1 ++ l2). unfold run. by rewrite foldl_app.
Qed.

Lemma getClientCount_add (u : string) (s : State) :
  0 ≤ getClientCount u s →
  getClientCount u (addClientToRoom u s) = getClientCount u s + 1.
Proof.
  intros H. unfold addClientToRoom. unfold getClientCount at 1; simpl.
  rewrite lookup_insert_eq. case_match; lia.
Qed.

Lemma getClientCount_add_ne (u v : string) (s : State) :
  u ≠ v → getClientCount v (addClientToRoom u s) = getClientCount v s.
Proof.
  intros H. unfold addClientToRoom. unfold getClientCount at 1; simpl.
  by rewrite lookup_insert_ne.
Qed.

Lemma getClientCount_remove (u : string) (s : State) :
  getClientCount u (removeClientFromRoom u s) =
    if getClientCount u s >? 0 then getClientCount u s - 1
    else getClientCount u s.
Proof.
  unfold removeClientFromRoom.
  destruct (getClientCount u s >? 0) eqn:G; [|done].
  unfold getClientCount at 1; simpl. rewrite lookup_insert_eq.
  case_match; lia.
Qed.

Lemma getClientCount_remove_ne (u v : string) (s : State) :
  u ≠ v → getClientCount v (removeClientFromRoom u s) = getClientCount v s.
Proof.
  intros H. unfold removeClientFromRoom.
  destruct (getClientCount u s >? 0); [|done].
  unfold getClientCount at 1; simpl. by rewrite lookup_insert_ne.
Qed.

Lemma getClientCount_step_connect (v : string) (k : nat) (u : string)
    (now : Z) (s : State) :
  getClientCount v (step (Connect k u now) s) = getClientCount v s.
Proof. apply getClientCount_frame. by apply step_roomClients. Qed.

Lemma server_count_nonneg (ts : list ServerTask) (ss : Server) (u : string) :
  server_run ts server_init = Some ss → 0 ≤ getClientCount u (service ss).
Proof.
  intros Hrun. destruct (server_run_service ts _ _ Hrun) as (l & ->).
  apply getClientCount_nonneg, run_counts_nonneg.
Qed.

(** X13. A [join-room] for a streamer who is not in the pool stays
    unanswered while the handshake runs, and starts one handshake.  A
    second socket that joins meanwhile under any spelling with the
    same normalised name is told [room-joined] at once and starts no
    other handshake.  When the handshake settles, the first socket is
    answered once, [room-joined] or [connection-error].  Nothing is
    rolled back on failure: both sockets stay in the room, the room
    count stays raised by two, and only the pool entry is gone. *)
Theorem join_room_shares_one_handshake
    (ts : list ServerTask) (ss : Server) (socket other : nat)
    (name name' : string) (now now' : Z) (ok : bool) :
  server_run ts server_init = Some ss →
  name ≠ "" → name' ≠ "" →
  normalizeUsername name' = normalizeUsername name →
  connections (service ss) !! normalizeUsername name = None →
  let u := normalizeUsername name in
  let c := MkConn (nextConn (service ss)) u in
  let ss1 := on_join_room socket (JStr name) now ss in
  let ss2 := on_join_room other (JStr name') now' ss1 in
  let ss3 := on_settle c ok ss2 in
  outbox ss1 = outbox ss ∧
  effects_since (service ss) (service ss1) = [Handshake c] ∧
  outbox ss2 = outbox ss1 ++ [(other, room_joined u)] ∧
  handshakes u (effects_since (service ss) (service ss2)) = 1%nat ∧
  outbox ss3 = outbox ss2 ++ [(socket, join_reply u ok)] ∧
  socket ∈ members (adapter ss3) u ∧
  other ∈ members (adapter ss3) u ∧
  getClientCount u (service ss3) = getClientCount u (service ss) + 2 ∧
  connections (service ss3) !! u =
    (if ok then Some {| connection := c; lastActivity := now' |} else None).
Proof.
  intros Hrun Hne Hne' Hsame E u c ss1 ss2 ss3.
  change (connections (service ss) !! u = None) in E.
  change (normalizeUsername name' = u) in Hsame.
  destruct (server_run_service ts _ _ Hrun) as (l & Hl). simpl in Hl.
  pose proof (server_count_nonneg ts ss u Hrun) as H0.
  (* first join *)
  destruct (on_join_room_valid socket name now ss Hne) as (Hs1 & Ha1 & _ & Ho1).
  fold u ss1 in Hs1, Ha1, Ho1. rewrite E in Ho1. rewrite app_nil_r in Ho1.
  set (sA := addClientToRoom u (service ss)) in *.
  assert (connections sA !! u = None) as EA by exact E.
  destruct (connect_absent_facts socket u now sA EA) as (Ht1 & Hc1 & Haw1 & _).
  rewrite <- Hs1 in Ht1, Hc1, Haw1.
  change (nextConn sA) with (nextConn (service ss)) in *. fold c in Ht1, Hc1, Haw1.
  change (trace sA) with (trace (service ss)) in Ht1.
  change (awaiting sA) with (awaiting (service ss)) in Haw1.
  assert (getClientCount u (service ss1) = getClientCount u (service ss) + 1)
    as Hn1.
  { rewrite Hs1, getClientCount_step_connect. by apply getClientCount_add. }
  (* second join *)
  destruct (on_join_room_valid other name' now' ss1 Hne') as (Hs2 & Ha2 & _ & Ho2).
  rewrite Hsame in Hs2, Ha2, Ho2. fold u ss2 in Hs2, Ha2, Ho2.
  assert (connections (service ss1) !! u
          = Some {| connection := c; lastActivity := now |}) as E1.
  { rewrite Hc1. apply lookup_insert_eq. }
  rewrite E1 in Ho2.
  set (sB := addClientToRoom u (service ss1)) in *.
  assert (connections sB !! u
          = Some {| connection := c; lastActivity := now |}) as EB by exact E1.
  destruct (connect_present_facts other u now' sB _ EB) as (Ht2 & Hc2 & Haw2 & _).
  rewrite <- Hs2 in Ht2, Hc2, Haw2.
  change (trace sB) with (trace (service ss1)) in Ht2.
  change (awaiting sB) with (awaiting (service ss1)) in Haw2.
  change (connections sB) with (connections (service ss1)) in Hc2.
  assert (getClientCount u (service ss2) = getClientCount u (service ss) + 2)
    as Hn2.
  { rewrite Hs2, getClientCount_step_connect.
    unfold sB. rewrite getClientCount_add; lia. }
  (* the handshake settles *)
  assert (take_awaiting c (awaiting (service ss2))
          = Some (socket, awaiting (service ss))) as Htake.
  { rewrite Haw2, Haw1. unfold c. rewrite Hl.
    apply take_awaiting_after_connect. }
  assert (ss3 = send socket (join_reply u ok)
                  (with_service (step (Settle c ok)) ss2)) as Hss3.
  { unfold ss3, on_settle. by rewrite Htake. }
  destruct (settle_facts c ok (service ss2) socket _ Htake)
    as (Ht3 & Hc3 & _ & _ & Hr3).
  split_and!.
  - exact Ho1.
  - by apply effects_since_app.
  - exact Ho2.
  - assert (effects_since (service ss) (service ss2)
            = [Handshake c; Resolved other true]) as ->.
    { apply effects_since_app. rewrite Ht2, Ht1. by rewrite <- app_assoc. }
    unfold handshakes; simpl. by rewrite bool_decide_true.
  - by rewrite Hss3.
  - rewrite Hss3. cbn [adapter send with_service].
    rewrite Ha2, Ha1, !members_join, !decide_True by done.
    apply elem_of_union_r, elem_of_union_l. by apply elem_of_singleton.
  - rewrite Hss3. cbn [adapter send with_service].
    rewrite Ha2, !members_join, !decide_True by done.
    apply elem_of_union_l. by apply elem_of_singleton.
  - rewrite Hss3. cbn [service send with_service].
    rewrite (getClientCount_frame u (service ss2) _ Hr3). exact Hn2.
  - rewrite Hss3. cbn [service send with_service]. rewrite Hc3. destruct ok.
    + rewrite Hc2, lookup_alter_eq, E1. done.
    + simpl. apply lookup_delete_eq.
Qed.

Lemma join_room_shares_one_handshake_witness :
  let ss := on_connection 2 "s2" (on_connection 1 "s1" server_init) in
  let ss2 := on_join_room 2 (JStr "alice")  1
               (on_join_room 1 (JStr " Alice ") 0 ss) in
  let ss3 := on_settle (MkConn 0 "alice") false ss2 in
  outbox ss3 = outbox ss2 ++ [(1%nat, connection_error "alice")] ∧
  getClientCount "alice" (service ss3) = 2 ∧
  connections (service ss3) !! "alice" = None.
Proof.
  intros ss ss2 ss3.
  pose proof (join_room_shares_one_handshake
                [SocketConnects 1 "s1"; SocketConnects 2 "s2"] ss 1 2
                " Alice " "alice" 0 1 false eq_refl) as H.
  destruct H as (_ & _ & _ & _ & H5 & _ & _ & H8 & H9);
    [discriminate|discriminate|reflexivity|reflexivity|].
  split; [exact H5|]. split; [exact H8|exact H9].
Defined.

Lemma js_truthy_string (name : string) :
  name ≠ "" → js_truthy (JStr name) = true.
Proof. intros H. simpl. by destruct (String.eqb_spec name ""). Qed.

Lemma on_leave_room_string (socket : nat) (name : string) (ss : Server) :
  name ≠ "" →
  let u := normalizeUsername name in
  on_leave_room socket (JStr name) ss =
    (with_service (removeClientFromRoom u) (with_adapter (leave socket u) ss),
     Returns).
Proof. intros H u. unfold on_leave_room. by rewrite (js_truthy_string _ H). Qed.

Lemma on_disconnect_named (socket : nat) (u : string) (ss : Server) :
  socketUsername ss !! socket = Some u → u ≠ "" →
  on_disconnect socket ss =
    with_service (removeClientFromRoom u)
      (with_adapter (fmap (λ sockets, sockets ∖ {[socket]})) ss).
Proof.
  intros E H. unfold on_disconnect. cbn [socketUsername with_adapter].
  by rewrite E, (js_truthy_string _ H).
Qed.

Lemma members_after_disconnect (socket : nat) (ss : Server) (k : nat)
    (room : string) :
  k ∈ members (adapter (on_disconnect socket ss)) room ↔
  k ∈ members (adapter ss) room ∧ k ≠ socket.
Proof.
  assert (adapter (on_disconnect socket ss) =
            (λ sockets, sockets ∖ {[socket]}) <$> adapter ss) as ->.
  { unfold on_disconnect. cbn [socketUsername with_adapter].
    by repeat case_match. }
  rewrite members_drop_socket, elem_of_difference, elem_of_singleton. done.
Qed.

(** X14. A socket that joins a room and then leaves it, or joins and
    then disconnects, leaves the count of every room as it was before
    it came, and is in the room no more.  Neither leaving nor
    disconnecting touches the pool: the upstream connection stays
    until the sweep or an explicit [disconnect] removes it. *)
Theorem join_then_leave_restores_count
    (ts : list ServerTask) (ss : Server) (socket : nat) (name : string)
    (now : Z) :
  server_run ts server_init = Some ss →
  name ≠ "" →
  normalizeUsername name ≠ "" →
  let u := normalizeUsername name in
  let ss1 := on_join_room socket (JStr name) now ss in
  let after_leave := (on_leave_room socket (JStr name) ss1).1 in
  let after_disconnect := on_disconnect socket ss1 in
  socket ∈ members (adapter ss1) u ∧
  getClientCount u (service ss1) = getClientCount u (service ss) + 1 ∧
  (∀ v, getClientCount v (service after_leave) = getClientCount v (service ss)) ∧
  (socket ∉ members (adapter after_leave) u) ∧
  (∀ v, getClientCount v (service after_disconnect) = getClientCount v (service ss)) ∧
  (∀ room, socket ∉ members (adapter after_disconnect) room) ∧
  connections (service after_leave) = connections (service ss1) ∧
  connections (service after_disconnect) = connections (service ss1).
Proof.
  intros Hrun Hne Hu u ss1 after_leave after_disconnect.
  pose proof (server_count_nonneg ts ss u Hrun) as H0.
  destruct (on_join_room_valid socket name now ss Hne) as (Hs1 & Ha1 & Hn1 & _).
  fold u ss1 in Hs1, Ha1, Hn1.
  assert (∀ v, getClientCount v (service ss1) =
               if decide (u = v) then getClientCount v (service ss) + 1
               else getClientCount v (service ss)) as Hcount1.
  { intros v. rewrite Hs1, getClientCount_step_connect. case_decide.
    - subst v. by apply getClientCount_add.
    - by apply getClientCount_add_ne. }
  assert (∀ s, getClientCount u s = getClientCount u (service ss) + 1 →
               (∀ v, getClientCount v s = getClientCount v (service ss1)) →
               ∀ v, getClientCount v (removeClientFromRoom u s)
                    = getClientCount v (service ss)) as Hback.
  { intros s Hs Hall v. destruct (decide (u = v)) as [<-|Hv].
    - rewrite getClientCount_remove, Hs.
      destruct (getClientCount u (service ss) + 1 >? 0) eqn:G; lia.
    - rewrite getClientCount_remove_ne, Hall, Hcount1 by done.
      by rewrite decide_False. }
  assert (getClientCount u (service ss1) = getClientCount u (service ss) + 1)
    as Hu1 by (by rewrite Hcount1, decide_True).
  assert (after_leave = with_service (removeClientFromRoom u)
                   (with_adapter (leave socket u) ss1)) as Hleft.
  { unfold after_leave. by rewrite (on_leave_room_string _ _ _ Hne). }
  assert (after_disconnect = with_service (removeClientFromRoom u)
                   (with_adapter (fmap (λ sockets, sockets ∖ {[socket]})) ss1))
    as Hgone.
  { apply on_disconnect_named; [|done]. rewrite Hn1. apply lookup_insert_eq. }
  assert (∀ s, connections (removeClientFromRoom u s) = connections s) as Hpool.
  { intros s. unfold removeClientFromRoom. by case_match. }
  split_and!.
  - rewrite Ha1, members_join, decide_True by done.
    apply elem_of_union_l. by apply elem_of_singleton.
  - exact Hu1.
  - intros v. rewrite Hleft. cbn [service with_service with_adapter].
    by apply Hback.
  - rewrite Hleft. cbn [adapter with_service with_adapter].
    rewrite members_leave, decide_True by done.
    rewrite elem_of_difference, elem_of_singleton. by intros [_ H].
  - intros v. rewrite Hgone. cbn [service with_service with_adapter].
    by apply Hback.
  - intros room Hin. apply members_after_disconnect in Hin as [_ H]. done.
  - rewrite Hleft. cbn [service with_service with_adapter]. apply Hpool.
  - rewrite Hgone. cbn [service with_service with_adapter]. apply Hpool.
Qed.

Lemma join_then_leave_restores_count_witness :
  let ss := on_connection 1 "s1" server_init in
  let ss1 := on_join_room 1 (JStr "Alice") 0 ss in
  getClientCount "alice" (service ss1) = 1 ∧
  getClientCount "alice" (service (on_disconnect 1 ss1)) = 0.
Proof.
  intros ss ss1.
  pose proof (join_then_leave_restores_count [SocketConnects 1 "s1"] ss 1
                "Alice" 0 eq_refl) as H.
  destruct H as (_ & H2 & _ & _ & H5 & _); [discriminate|discriminate|].
  split; [exact H2 | exact (H5 "alice")].
Defined.

(** X15. The room count follows the calls of the handlers, not the
    membership of the room.  A socket that joins, sends [leave-room]
    and then disconnects is subtracted twice: the count ends one
    below what it was before the socket came (or at 0), while the
    other sockets are members as before.  A socket that joins the
    same room twice and disconnects is subtracted once: the count
    ends one above what it was, while the socket is in no room. *)
Theorem room_count_drifts_from_membership
    (ts : list ServerTask) (ss : Server) (socket : nat) (name : string)
    (now now' : Z) :
  server_run ts server_init = Some ss →
  name ≠ "" →
  normalizeUsername name ≠ "" →
  let u := normalizeUsername name in
  let n := getClientCount u (service ss) in
  let ss1 := on_join_room socket (JStr name) now ss in
  let twice_out := on_disconnect socket (on_leave_room socket (JStr name) ss1).1 in
  let twice_in := on_disconnect socket (on_join_room socket (JStr name) now' ss1) in
  getClientCount u (service twice_out) = (if n >? 0 then n - 1 else 0) ∧
  (∀ k room, k ≠ socket →
     (k ∈ members (adapter twice_out) room ↔ k ∈ members (adapter ss) room)) ∧
  getClientCount u (service twice_in) = n + 1 ∧
  (∀ room, socket ∉ members (adapter twice_in) room).
Proof.
  intros Hrun Hne Hu u n ss1 twice_out twice_in.
  pose proof (server_count_nonneg ts ss u Hrun) as H0. fold n in H0.
  destruct (on_join_room_valid socket name now ss Hne) as (Hs1 & Ha1 & Hn1 & _).
  fold u ss1 in Hs1, Ha1, Hn1.
  assert (getClientCount u (service ss1) = n + 1) as Hc1.
  { rewrite Hs1, getClientCount_step_connect. by apply getClientCount_add. }
  (* leave, then disconnect *)
  set (ss2 := (on_leave_room socket (JStr name) ss1).1).
  assert (ss2 = with_service (removeClientFromRoom u)
                  (with_adapter (leave socket u) ss1)) as Hss2.
  { unfold ss2. by rewrite (on_leave_room_string _ _ _ Hne). }
  assert (getClientCount u (service ss2) = n) as Hc2.
  { rewrite Hss2. cbn [service with_service with_adapter].
    rewrite getClientCount_remove, Hc1.
    destruct (n + 1 >? 0) eqn:G; lia. }
  assert (socketUsername ss2 !! socket = Some u) as Hn2.
  { rewrite Hss2. cbn [socketUsername with_service with_adapter].
    rewrite Hn1. apply lookup_insert_eq. }
  assert (twice_out = with_service (removeClientFromRoom u)
            (with_adapter (fmap (λ sockets, sockets ∖ {[socket]})) ss2))
    as Hout by (by apply on_disconnect_named).
  (* join again, then disconnect *)
  destruct (on_join_room_valid socket name now' ss1 Hne) as (Hs3 & _ & Hn3 & _).
  fold u in Hs3, Hn3.
  set (ss3 := on_join_room socket (JStr name) now' ss1) in *.
  assert (getClientCount u (service ss3) = n + 2) as Hc3.
  { rewrite Hs3, getClientCount_step_connect, getClientCount_add; lia. }
  assert (twice_in = with_service (removeClientFromRoom u)
            (with_adapter (fmap (λ sockets, sockets ∖ {[socket]})) ss3))
    as Hin.
  { apply on_disconnect_named; [|done]. rewrite Hn3. apply lookup_insert_eq. }
  split_and!.
  - rewrite Hout. cbn [service with_service with_adapter].
    rewrite getClientCount_remove, Hc2. destruct (n >? 0) eqn:G; lia.
  - intros k room Hk. rewrite Hout. cbn [adapter with_service with_adapter].
    rewrite members_drop_socket, Hss2. cbn [adapter with_service with_adapter].
    rewrite Ha1, members_leave, members_join.
    destruct (decide (u = room)) as [->|_].
    + rewrite !elem_of_difference, elem_of_union, !elem_of_singleton. tauto.
    + rewrite elem_of_difference, elem_of_singleton. tauto.
  - rewrite Hin. cbn [service with_service with_adapter].
    rewrite getClientCount_remove, Hc3. destruct (n + 2 >? 0) eqn:G; lia.
  - intros room Hmem. apply members_after_disconnect in Hmem as [_ H]. done.
Qed.

Lemma room_count_drifts_from_membership_witness :
  let ss := on_join_room 2 (JStr "alice") 0 server_init in
  let ss1 := on_join_room 1 (JStr "alice") 1 ss in
  let out := on_disconnect 1 (on_leave_room 1 (JStr "alice") ss1).1 in
  getClientCount "alice" (service ss) = 1 ∧
  getClientCount "alice" (service out) = 0 ∧
  (2%nat ∈ members (adapter out) "alice" ↔ 2%nat ∈ members (adapter ss) "alice").
Proof.
  intros ss ss1 out.
  pose proof (room_count_drifts_from_membership [JoinRoom 2 (JStr "alice") 0]
                ss 1 "alice" 1 2 eq_refl) as H.
  destruct H as (H1 & H2 & _); [discriminate|discriminate|].
  split; [reflexivity|]. split; [exact H1|]. apply H2. discriminate.
Defined.

(** X16. What the handlers do with a bad payload.  [join-room]
    answers anything but a non-empty string with an [error] to the
    sender and changes nothing else.  [leave-room] ignores a falsy
    payload, but on a truthy payload that is not a string it throws,
    which [join-room] never does.  A name of white space only passes
    the check of [join-room]: the socket joins the room with the empty
    name, and since the empty name stored on the socket is falsy, its
    disconnection does not lower the count again. *)
Theorem handlers_on_bad_payloads
    (socket : nat) (payload : JsVal) (now : Z) (ss : Server) :
  (valid_username payload = None ↔ ∀ name, payload = JStr name → name = "") ∧
  (valid_username payload = None →
     on_join_room socket payload now ss = send socket invalid_username ss) ∧
  (js_truthy payload = false →
     on_leave_room socket payload ss = (ss, Returns)) ∧
  (js_truthy payload = true → valid_username payload = None →
     on_leave_room socket payload ss = (ss, Throws) ∧
     server_step (LeaveRoom socket payload) ss = None ∧
     server_step (JoinRoom socket payload now) ss
       = Some (send socket invalid_username ss)) ∧
  (∀ name, payload = JStr name → name ≠ "" → normalizeUsername name = "" →
     let ss1 := on_join_room socket payload now ss in
     socket ∈ members (adapter ss1) "" ∧
     socketUsername ss1 !! socket = Some "" ∧
     service (on_disconnect socket ss1) = service ss1).
Proof.
  split_and!.
  - split.
    + intros V name ->. destruct (decide (name = "")) as [|Hne]; [done|].
      assert (valid_username (JStr name) = Some name) as V'
        by (by apply valid_username_Some).
      congruence.
    + intros H. destruct (valid_username payload) as [name|] eqn:V; [|done].
      apply valid_username_Some in V as [-> Hne]. by destruct (Hne (H _ eq_refl)).
  - apply on_join_room_invalid.
  - intros F. unfold on_leave_room. by rewrite F.
  - intros T V. assert (on_leave_room socket payload ss = (ss, Throws)) as Hl.
    { unfold on_leave_room. rewrite T.
      destruct payload as [| |b|n|name]; try done.
      simpl in V. simpl in T. by rewrite T in V. }
    split_and!; [done| |].
    + simpl. by rewrite Hl.
    + simpl. by rewrite (on_join_room_invalid _ _ _ _ V).
  - intros name -> Hne Hu ss1.
    destruct (on_join_room_valid socket name now ss Hne) as (_ & Ha & Hn & _).
    rewrite Hu in Ha, Hn. fold ss1 in Ha, Hn.
    split_and!.
    + rewrite Ha, members_join, decide_True by done.
      apply elem_of_union_l. by apply elem_of_singleton.
    + rewrite Hn. apply lookup_insert_eq.
    + unfold on_disconnect. cbn [socketUsername with_adapter].
      rewrite Hn, lookup_insert_eq. done.
Qed.

Lemma handlers_on_bad_payloads_witness :
  on_leave_room 1 (JNum 5) server_init = (server_init, Throws) ∧
  server_step (JoinRoom 1 (JNum 5) 0) server_init
    = Some (send 1 invalid_username server_init) ∧
  service (on_disconnect 1 (on_join_room 1 (JStr "  ") 0 server_init))
    = service (on_join_room 1 (JStr "  ") 0 server_init).
Proof.
  pose proof (handlers_on_bad_payloads 1 (JNum 5) 0 server_init)
    as (_ & _ & _ & H & _).
  pose proof (handlers_on_bad_payloads 1 (JStr "  ") 0 server_init)
    as (_ & _ & _ & _ & H').
  destruct (H eq_refl eq_refl) as (H1 & _ & H3).
  destruct (H' "  " eq_refl) as (_ & _ & H6); [discriminate|reflexivity|].
  split; [exact H1|]. split; [exact H3 | exact H6].
Defined.
